(** * SoftFM: the streaming pipeline of [main.cc]

    A shallow embedding of the thread hand-over buffer [DataBuffer], of the
    output thread [write_output_data] and of the main loop of [main], with the
    properties of the specification stated over them.

    Conventions.
    - [size_t] is the 64-bit unsigned type of the LP64 targets the program is
      built for, [unsigned int] is 32 bits wide, [int] is 32 bits wide and
      signed; their arithmetic is written on [Z] with the wrap-around explicit.
    - A [vector<Element>] is a [list Element]; the [queue] of vectors is a list
      of lists, front first.
    - Every member function of [DataBuffer] runs under the buffer's mutex, so
      each is one atomic transition of the buffer.  A call that would wait on
      the condition variable is a call that is not enabled yet: the functions
      that can wait return an [option], [None] meaning that the calling thread
      waits (and re-evaluates the same condition after every notification). *)

From Stdlib Require Import Ascii String ZArith List Bool Lia QArith Qpower.
From Stdlib Require Import PrimFloat FloatOps SpecFloat FloatAxioms.
Import ListNotations.
Local Open Scope Z_scope.

Set Implicit Arguments.

(** ** Machine integers *)

Definition size_t_modulus : Z := 2 ^ 64.
Definition uint_modulus : Z := 2 ^ 32.
Definition INT_MAX : Z := 2147483647.

(** Arithmetic on [size_t] and on [unsigned int] is modulo the type's range. *)
Definition wrap_size_t (z : Z) : Z := z mod size_t_modulus.
Definition wrap_uint (z : Z) : Z := z mod uint_modulus.

(** [v.size()] of a vector. *)
Definition vsize {E : Type} (v : list E) : Z := Z.of_nat (List.length v).

(** [v.empty()] of a vector or of a queue. *)
Definition empty {E : Type} (v : list E) : bool :=
  match v with
  | [] => true
  | _ :: _ => false
  end.

(** Number of elements held by a list of blocks. *)
Fixpoint total_size {E : Type} (q : list (list E)) : Z :=
  match q with
  | [] => 0
  | v :: q' => vsize v + total_size q'
  end.

(** Number of changes from [false] to [true], and from [true] to [false],
    in the successive values [l] of a flag whose value before was [prev]. *)
Fixpoint rises_from (prev : bool) (l : list bool) : nat :=
  match l with
  | [] => O
  | b :: l' => ((if negb prev && b then 1 else 0) + rises_from b l')%nat
  end.

Fixpoint falls_from (prev : bool) (l : list bool) : nat :=
  match l with
  | [] => O
  | b :: l' => ((if prev && negb b then 1 else 0) + falls_from b l')%nat
  end.

(** ** [DataBuffer<Element>] *)

Section DataBuffer.

Variable Element : Type.

Record DataBuffer : Type := mkDataBuffer {
  m_qlen : Z;                          (* size_t *)
  m_end_marked : bool;
  m_queue : list (list Element)        (* front of the queue first *)
}.

(** The constructor: [m_qlen(0)], [m_end_marked(false)], an empty queue. *)
Definition DataBuffer_new : DataBuffer :=
  {| m_qlen := 0; m_end_marked := false; m_queue := [] |}.

(** [push]: nothing at all for an empty vector; otherwise the count grows by
    the vector's size and the vector goes to the back of the queue. *)
Definition push (s : DataBuffer) (samples : list Element) : DataBuffer :=
  if negb (empty samples) then
    {| m_qlen := wrap_size_t (m_qlen s + vsize samples);
       m_end_marked := m_end_marked s;
       m_queue := m_queue s ++ [samples] |}
  else s.

(** [push_end]. *)
Definition push_end (s : DataBuffer) : DataBuffer :=
  {| m_qlen := m_qlen s; m_end_marked := true; m_queue := m_queue s |}.

(** [queued_samples]: reads the count, the buffer is not changed. *)
Definition queued_samples (s : DataBuffer) : Z := m_qlen s.

(** [pull]: waits while the queue is empty and the end is not marked; then,
    if the queue is not empty, takes the front block (and subtracts its size
    from the count), else returns the empty vector [ret]. *)
Definition pull (s : DataBuffer) : option (list Element * DataBuffer) :=
  if empty (m_queue s) && negb (m_end_marked s) then None
  else
    match m_queue s with
    | front :: rest =>
        Some (front,
              {| m_qlen := wrap_size_t (m_qlen s - vsize front);
                 m_end_marked := m_end_marked s;
                 m_queue := rest |})
    | [] => Some ([], s)
    end.

(** [pull_end_reached]. *)
Definition pull_end_reached (s : DataBuffer) : bool :=
  (m_qlen s =? 0) && m_end_marked s.

(** [wait_buffer_fill]: waits while [m_qlen < minfill && !m_end_marked];
    the buffer is not changed.  [Some tt] is a return, [None] a wait. *)
Definition wait_buffer_fill (s : DataBuffer) (minfill : Z) : option unit :=
  if (m_qlen s <? minfill) && negb (m_end_marked s) then None else Some tt.

(** *** Sequences of calls *)

(** [n] successive calls of [pull] by one thread: the blocks returned, in
    order, and the buffer left; [None] when one of the calls has to wait. *)
Fixpoint pull_n (n : nat) (s : DataBuffer)
  : option (list (list Element) * DataBuffer) :=
  match n with
  | O => Some ([], s)
  | S n' =>
      match pull s with
      | None => None
      | Some (v, s') =>
          match pull_n n' s' with
          | None => None
          | Some (vs, s'') => Some (v :: vs, s'')
          end
      end
  end.

(** Pushing a list of blocks, first block first. *)
Definition push_all (s : DataBuffer) (blocks : list (list Element))
  : DataBuffer :=
  fold_left push blocks s.

(** The calls of the class, as the threads of the program issue them. *)
Inductive Op : Type :=
| OpPush (samples : list Element)
| OpPushEnd
| OpQueuedSamples
| OpPull
| OpPullEndReached
| OpWaitBufferFill (minfill : Z).

(** The buffer after a call.  A call that waits leaves the buffer as it is
    (a waiting thread holds no lock and has changed nothing). *)
Definition exec_op (s : DataBuffer) (op : Op) : DataBuffer :=
  match op with
  | OpPush samples => push s samples
  | OpPushEnd => push_end s
  | OpQueuedSamples => s
  | OpPull => match pull s with Some (_, s') => s' | None => s end
  | OpPullEndReached => s
  | OpWaitBufferFill _ => s
  end.

Definition run_ops (s : DataBuffer) (ops : list Op) : DataBuffer :=
  fold_left exec_op ops s.

(** The buffers a sequence of calls leaves, one after each call. *)
Fixpoint states_of (s : DataBuffer) (ops : list Op) : list DataBuffer :=
  match ops with
  | [] => []
  | op :: ops' => exec_op s op :: states_of (exec_op s op) ops'
  end.

(** *** The representation invariant *)

(** The count is the number of queued elements (in [size_t] arithmetic) and
    no queued block is empty. *)
Definition buffer_inv (s : DataBuffer) : Prop :=
  m_qlen s = wrap_size_t (total_size (m_queue s)) /\
  Forall (fun v => v <> []) (m_queue s).

(** The queued elements can be counted by a [size_t].  With elements of at
    least one byte this holds of every queue a 64-bit address space holds. *)
Definition fits_size_t (s : DataBuffer) : Prop :=
  total_size (m_queue s) < size_t_modulus.

End DataBuffer.

Arguments DataBuffer_new {Element}.
Arguments OpPushEnd {Element}.
Arguments OpQueuedSamples {Element}.
Arguments OpPull {Element}.
Arguments OpPullEndReached {Element}.
Arguments OpWaitBufferFill {Element}.

(** ** The output thread: [write_output_data] *)

Section OutputThread.

Variable Sample : Type.

(** What one turn of the [while] loop comes to. *)
Inductive IterOutcome : Type :=
| ExitStop                    (* [stop_flag] was set: the loop condition fails *)
| ExitEnd                     (* [pull_end_reached()]: [break] *)
| WaitFill                    (* the thread waits in [wait_buffer_fill] *)
| WaitPull                    (* the thread waits in [pull] *)
| Wrote (samples : list Sample) (buf' : DataBuffer Sample).
                              (* one block pulled and passed to [write] *)

(** One turn of the loop of [write_output_data], run without another thread
    touching the buffer in between.  [stop] is the value that
    [stop_flag.load()] gives at the top of the turn. *)
Definition write_output_iter (stop : bool) (buf : DataBuffer Sample)
    (buf_minfill : Z) : IterOutcome :=
  if stop then ExitStop
  else
    match (if queued_samples buf =? 0
           then wait_buffer_fill buf buf_minfill else Some tt) with
    | None => WaitFill
    | Some _ =>
        if pull_end_reached buf then ExitEnd
        else
          match pull buf with
          | None => WaitPull
          | Some (samples, buf') => Wrote samples buf'
          end
    end.

Inductive ThreadStatus : Type :=
| Exited          (* the function has returned *)
| Waiting         (* the thread waits for the producer *)
| Running.        (* the fuel is used up, the loop goes on *)

(** The loop.  [stop_flag k] is the value loaded at the top of turn [k];
    [written] collects the blocks passed to [output->write], oldest first.
    (A failed [write] only prints a message, and the loop goes on.) *)
Fixpoint write_output_data (fuel : nat) (stop_flag : nat -> bool) (k : nat)
    (buf : DataBuffer Sample) (buf_minfill : Z)
    (written : list (list Sample))
  : ThreadStatus * DataBuffer Sample * list (list Sample) :=
  match fuel with
  | O => (Running, buf, written)
  | S fuel' =>
      match write_output_iter (stop_flag k) buf buf_minfill with
      | ExitStop | ExitEnd => (Exited, buf, written)
      | WaitFill | WaitPull => (Waiting, buf, written)
      | Wrote samples buf' =>
          write_output_data fuel' stop_flag (S k) buf' buf_minfill
                            (written ++ [samples])
      end
  end.

End OutputThread.

Arguments ExitStop {Sample}.
Arguments ExitEnd {Sample}.
Arguments WaitFill {Sample}.
Arguments WaitPull {Sample}.

(** ** Arithmetic on [double] *)

(** The operations on [double] that [main] uses.  The program computes in
    IEEE 754 binary64 ([binary64] below, on the kernel's floating-point
    numbers, each operation rounded to nearest); the same text read over the
    rationals ([exact] below) is the arithmetic without rounding. *)
Class DoubleOps (D : Type) : Type := {
  d_of_int : Z -> D;            (* conversion of an integer value *)
  d_add : D -> D -> D;
  d_mul : D -> D -> D;
  d_ltb : D -> D -> bool;       (* [a < b] *)
  d_0_95 : D;                   (* the literal [0.95] *)
  d_0_05 : D;                   (* the literal [0.05] *)
  d_0_5 : D;                    (* the literal [0.5] *)
  d_to_uint : D -> option Z     (* [(unsigned int) x]: the value truncated;
                                   [None] where it does not fit (undefined) *)
}.

(** [(unsigned int)] of a sign, a magnitude [m * 2 ^ e]. *)
Definition uint_of_parts (neg : bool) (m e : Z) : option Z :=
  let t := if 0 <=? e then m * 2 ^ e else m / 2 ^ (- e) in
  if neg then (if t =? 0 then Some 0 else None)
  else if t <? uint_modulus then Some t else None.

(** The conversion of an integer to [double]: the nearest binary64 number,
    ties to even. *)
Definition float_of_Z (z : Z) : float :=
  SF2Prim (binary_normalize prec emax z 0 false).

(** [(unsigned int) x] for a [double]. *)
Definition float_to_uint (x : float) : option Z :=
  match Prim2SF x with
  | S754_zero _ => Some 0
  | S754_finite s m e => uint_of_parts s (Zpos m) e
  | S754_infinity _ | S754_nan => None
  end.

#[export] Instance binary64 : DoubleOps float := {|
  d_of_int := float_of_Z;
  d_add := PrimFloat.add;
  d_mul := PrimFloat.mul;
  d_ltb := PrimFloat.ltb;
  d_0_95 := 0x1.e666666666666p-1%float;
  d_0_05 := 0x1.999999999999ap-5%float;
  d_0_5 := 0.5%float;
  d_to_uint := float_to_uint
|}.

(** [(unsigned int) x] for a rational. *)
Definition Q_to_uint (q : Q) : option Z :=
  let t := Z.quot (Qnum q) (Zpos (Qden q)) in
  if (0 <=? t) && (t <? uint_modulus) then Some t else None.

#[export] Instance exact : DoubleOps Q := {|
  d_of_int := inject_Z;
  d_add := Qplus;
  d_mul := Qmult;
  d_ltb := fun a b => negb (Qle_bool b a);
  d_0_95 := 95 # 100;
  d_0_05 := 5 # 100;
  d_0_5 := 1 # 2;
  d_to_uint := Q_to_uint
|}.

(** The rational number a binary64 value stands for; [None] for the
    infinities and NaN. *)
Definition float_to_Q (x : float) : option Q :=
  match Prim2SF x with
  | S754_zero _ => Some (0 # 1)
  | S754_finite s m e =>
      let mag := if 0 <=? e then inject_Z (Zpos m * 2 ^ e)
                 else Qmake (Zpos m) (Z.to_pos (2 ^ (- e))) in
      Some (if s then Qopp mag else mag)
  | S754_infinity _ | S754_nan => None
  end.

(** ** [main]: the options that decide on output buffering *)

Inductive OutputMode : Type := MODE_RAW | MODE_WAV | MODE_ALSA.

Definition OutputMode_eqb (a b : OutputMode) : bool :=
  match a, b with
  | MODE_RAW, MODE_RAW | MODE_WAV, MODE_WAV | MODE_ALSA, MODE_ALSA => true
  | _, _ => false
  end.

Section Buffering.

Context {D : Type} {ops : DoubleOps D}.

(** The variables of [main] that the option loop sets and the buffer
    set-up reads.  [pcmrate] is an [int] that the option loop keeps at 1 or
    above; [bufsecs] is [-1] unless [-b] has set it. *)
Record Options : Type := mkOptions {
  pcmrate : Z;
  stereo : bool;
  outmode : OutputMode;
  filename : string;
  bufsecs : D
}.

(** The values before the option loop. *)
Definition default_options : Options :=
  {| pcmrate := 48000; stereo := true; outmode := MODE_ALSA;
     filename := EmptyString; bufsecs := d_of_int (-1) |}.

(** "Calculate number of samples in audio buffer": the value of
    [outputbuf_samples] after the [if], [None] where the conversion to
    [unsigned int] is undefined. *)
Definition outputbuf_samples (o : Options) : option Z :=
  if d_ltb (bufsecs o) (d_of_int 0) &&
     (OutputMode_eqb (outmode o) MODE_ALSA ||
      (OutputMode_eqb (outmode o) MODE_RAW && String.eqb (filename o) "-"))
  then Some (wrap_uint (pcmrate o))
  else if d_ltb (d_of_int 0) (bufsecs o)
  then d_to_uint (d_mul (bufsecs o) (d_of_int (pcmrate o)))
  else Some 0.

Definition nchannel (o : Options) : Z := if stereo o then 2 else 1.

(** "If buffering enabled, start background output thread": the
    [buf_minfill] the output thread is started with, [None] when no output
    thread is started. *)
Definition output_thread_minfill (o : Options) (outputbuf : Z) : option Z :=
  if 0 <? outputbuf then Some (wrap_uint (outputbuf * nchannel o))
  else None.

End Buffering.

Arguments Options D : clear implicits.

(** ** [main]: the main loop *)

(** Modelled from the spec: the decoder [FmDecoder] and the level meter
    [samples_mean_rms], which [main] calls and which live in other files of
    the program ([FmDecode.h]).  The specification gives the decoder as
    "[process(IQSampleBlock) -> SampleBlock] plus read-only telemetry
    accessors": [process] fills the audio vector from a block of IQ samples
    and moves the decoder on; [stereo_detected] and [get_pilot_level] read the
    decoder; [samples_mean_rms] gives the mean and the RMS of a vector.  They
    are parameters of everything below. *)
Class Decoder (D IQSample : Type) : Type := {
  FmDecoder : Type;
  process : FmDecoder -> list IQSample -> FmDecoder * list D;
  stereo_detected : FmDecoder -> bool;
  get_pilot_level : FmDecoder -> D;
  samples_mean_rms : list D -> D * D
}.

(** What the loop does to the world outside it: the lines it prints and the
    blocks it hands on.  Of the status line only the block number and the
    level are kept (its other fields are read from the decoder and from the
    output buffer and formatted with [log10]). *)
Inductive Event (D : Type) : Type :=
| LogBacklogWarning                    (* "WARNING: Input buffer is growing" *)
| LogStatus (block : Z) (level : D)    (* the "blk=... audio=..." line *)
| LogGotStereo (pilot : D)             (* "got stereo signal (pilot level = ...)" *)
| LogLostStereo                        (* "lost stereo signal" *)
| OutPush (samples : list D)           (* [output_buffer.push(move(audiosamples))] *)
| OutWrite (samples : list D).         (* [audio_output->write(audiosamples)] *)

Arguments LogBacklogWarning {D}.
Arguments LogLostStereo {D}.

Section MainLoop.

Context {D : Type} {ops : DoubleOps D}.
Context {IQSample : Type} {dec : Decoder D IQSample}.

(** [adjust_gain]: the loop bound [n] is an [unsigned int] initialised
    from [samples.size()]. *)
Definition adjust_gain (samples : list D) (gain : D) : list D :=
  let n := Z.to_nat (wrap_uint (vsize samples)) in
  map (fun x => d_mul x gain) (firstn n samples) ++ skipn n samples.

(** The variables that live across turns of the main loop. *)
Record MainState : Type := mkMainState {
  block : Z;                         (* unsigned int *)
  inbuf_length_warning : bool;
  audio_level : D;
  got_stereo : bool;
  fm : FmDecoder
}.

Definition main_init (fm0 : FmDecoder) : MainState :=
  {| block := 0; inbuf_length_warning := false;
     audio_level := d_of_int 0; got_stereo := false; fm := fm0 |}.

(** What one turn of the loop reads from the other threads: the stop flag
    at the top of the turn, and the results of the two calls on the source
    buffer, which the source thread fills meanwhile. *)
Record IterInput : Type := mkIterInput {
  in_stop : bool;                    (* [stop_flag.load()] *)
  in_queued : Z;                     (* [source_buffer.queued_samples()] *)
  in_iq : list IQSample              (* [source_buffer.pull()] *)
}.

(** [source_buffer.queued_samples() > 10 * ifrate]. *)
Definition backlog_check (ifrate : D) (queued : Z) : bool :=
  d_ltb (d_mul (d_of_int 10) ifrate) (d_of_int queued).

Inductive Flow : Type := Continue | Break.

(** One turn of the main loop, with the [block++] that follows it. *)
Definition main_iter (ifrate : D) (outputbuf : Z) (inp : IterInput)
    (st : MainState) : Flow * MainState * list (Event D) :=
  if in_stop inp then (Break, st, [])
  else
    let warn := negb (inbuf_length_warning st) &&
                backlog_check ifrate (in_queued inp) in
    let warned := if warn then true else inbuf_length_warning st in
    let ev_warn := if warn then [LogBacklogWarning] else [] in
    if empty (in_iq inp) then
      (Break,
       {| block := block st; inbuf_length_warning := warned;
          audio_level := audio_level st; got_stereo := got_stereo st;
          fm := fm st |},
       ev_warn)
    else
      let (fm', audiosamples) := process (fm st) (in_iq inp) in
      let (audio_mean, audio_rms) := samples_mean_rms audiosamples in
      let level := d_add (d_mul d_0_95 (audio_level st))
                         (d_mul d_0_05 audio_rms) in
      let audiosamples := adjust_gain audiosamples d_0_5 in
      let ev_status := [LogStatus (block st) level] in
      let edge := negb (Bool.eqb (stereo_detected fm') (got_stereo st)) in
      let got := if edge then stereo_detected fm' else got_stereo st in
      let ev_stereo :=
        if edge then
          [if got then LogGotStereo (get_pilot_level fm') else LogLostStereo]
        else [] in
      let ev_out :=
        if 0 <? block st then
          [if 0 <? outputbuf then OutPush audiosamples
           else OutWrite audiosamples]
        else [] in
      (Continue,
       {| block := wrap_uint (block st + 1); inbuf_length_warning := warned;
          audio_level := level; got_stereo := got; fm := fm' |},
       ev_warn ++ ev_status ++ ev_stereo ++ ev_out).

(** The main loop over the inputs of its successive turns.  The result
    tells whether the loop has been left, gives the variables, and the
    events of every turn that was run, one list per turn. *)
Fixpoint main_loop (ifrate : D) (outputbuf : Z) (inputs : list IterInput)
    (st : MainState) : bool * MainState * list (list (Event D)) :=
  match inputs with
  | [] => (false, st, [])
  | inp :: rest =>
      match main_iter ifrate outputbuf inp st with
      | (Break, st', ev) => (true, st', [ev])
      | (Continue, st', ev) =>
          let '(over, st'', evs) := main_loop ifrate outputbuf rest st' in
          (over, st'', ev :: evs)
      end
  end.

(** After the loop, "Join background threads": with output buffering the
    main thread marks the end of the output buffer and then waits for the
    output thread. *)
Definition main_shutdown (outputbuf : Z) (output_buffer : DataBuffer D)
  : DataBuffer D :=
  if 0 <? outputbuf then push_end output_buffer else output_buffer.

Definition loop_state (r : bool * MainState * list (list (Event D)))
  : MainState := snd (fst r).
Definition loop_events (r : bool * MainState * list (list (Event D)))
  : list (list (Event D)) := snd r.

(** *** Reading a list of events *)

Definition is_backlog_warning (e : Event D) : bool :=
  match e with LogBacklogWarning => true | _ => false end.

(** A list of events without the warning. *)
Definition quiet (evs : list (Event D)) : Prop :=
  filter is_backlog_warning evs = [].

Definition is_stereo_log (e : Event D) : bool :=
  match e with LogGotStereo _ | LogLostStereo => true | _ => false end.

(** The blocks handed on, to the output buffer or to the sink. *)
Fixpoint forwarded (evs : list (Event D)) : list (list D) :=
  match evs with
  | [] => []
  | OutPush v :: evs' | OutWrite v :: evs' => v :: forwarded evs'
  | _ :: evs' => forwarded evs'
  end.

Definition is_direct_write (e : Event D) : bool :=
  match e with OutWrite _ => true | _ => false end.
Definition is_buffered_push (e : Event D) : bool :=
  match e with OutPush _ => true | _ => false end.

(** A turn that neither sees the stop flag nor the end of the input. *)
Definition runs (inp : IterInput) : bool :=
  negb (in_stop inp) && negb (empty (in_iq inp)).

(** The audio blocks [process] returns for a list of input blocks, the
    decoder being carried from each call to the next. *)
Fixpoint decode_all (fm0 : FmDecoder) (iqs : list (list IQSample))
  : list (list D) :=
  match iqs with
  | [] => []
  | iq :: iqs' =>
      let (fm', audio) := process fm0 iq in audio :: decode_all fm' iqs'
  end.

End MainLoop.

Arguments MainState D {IQSample dec}.
Arguments IterInput IQSample : clear implicits.

(** ** A synthetic decoder *)

(** A decoder that plays a script: every call of [process] returns the block
    [audio] and takes the next stereo-lock value from the script (keeping the
    last one when the script is used up); the meter reports [rms] for every
    vector. *)
Definition scripted_decoder {D : Type} {ops : DoubleOps D}
    (audio : list D) (rms : D) : Decoder D unit := {|
  FmDecoder := bool * list bool;
  process := fun st _ =>
    match snd st with
    | [] => (st, audio)
    | b :: script => ((b, script), audio)
    end;
  stereo_detected := fst;
  get_pilot_level := fun _ => d_of_int 0;
  samples_mean_rms := fun _ => (d_of_int 0, rms)
|}.

(** The scripted decoder before its first call: no stereo lock. *)
Definition scripted_start {D : Type} {ops : DoubleOps D}
    (audio : list D) (rms : D) (script : list bool)
  : @FmDecoder D unit (scripted_decoder audio rms) :=
  (false, script).

(** An input of the main loop that carries one IQ block [iq]. *)
Definition running_input {IQSample : Type} (iq : list IQSample)
  : IterInput IQSample :=
  {| in_stop := false; in_queued := 0; in_iq := iq |}.

(** The end of the input: [pull] has returned the empty vector. *)
Definition end_input {IQSample : Type} : IterInput IQSample :=
  {| in_stop := false; in_queued := 0; in_iq := [] |}.

(** ** Exact reference values for the level meter *)

(** [1 + q + ... + q ^ (n - 1)]. *)
Fixpoint geometric_sum (q : Q) (n : nat) : Q :=
  match n with
  | O => 0
  | S n' => (1 + q * geometric_sum q n')%Q
  end.

(** [r * (1 - 0.95 ^ n)]. *)
Definition level_closed_form (r : Q) (n : nat) : Q :=
  (r * (1 - (95 # 100) ^ Z.of_nat n))%Q.

(** ** What the specification expects of the main loop *)

Section MainLoopSpec.

Context {D : Type} {ops : DoubleOps D}.
Context {IQSample : Type} {dec : Decoder D IQSample}.

(** The decoder after each of the successive calls of [process]. *)
Fixpoint fm_states (fm0 : FmDecoder) (iqs : list (list IQSample))
  : list FmDecoder :=
  match iqs with
  | [] => []
  | iq :: iqs' =>
      let fm' := fst (process fm0 iq) in fm' :: fm_states fm' iqs'
  end.

(** One line per change of the stereo lock, which says which way it went,
    and no line where the lock is what it was: the lines of each turn, for
    the decoders [fms] that the turns observe, [prev] being the lock seen
    before. *)
Fixpoint edge_lines (prev : bool) (fms : list FmDecoder)
  : list (list (Event D)) :=
  match fms with
  | [] => []
  | f :: fms' =>
      (if Bool.eqb (stereo_detected f) prev then []
       else [if stereo_detected f then LogGotStereo (get_pilot_level f)
             else LogLostStereo])
      :: edge_lines (stereo_detected f) fms'
  end.

(** The level meter: [estimate = 0.95 * estimate + 0.05 * rms] for each of
    the RMS values in turn. *)
Definition level_step (estimate rms : D) : D :=
  d_add (d_mul d_0_95 estimate) (d_mul d_0_05 rms).

Definition level_after (estimate : D) (rmss : list D) : D :=
  fold_left level_step rmss estimate.

(** The turn checks the length of the input queue and finds it above ten
    seconds of input: a turn that sees the stop flag checks nothing. *)
Definition exceeds (ifrate : D) (inp : IterInput IQSample) : bool :=
  negb (in_stop inp) && backlog_check ifrate (in_queued inp).

End MainLoopSpec.

(** * The rest of the program *)

(** ** Accounting for the calls on a buffer *)

Section DataBufferTraces.

Variable Element : Type.

(** The blocks that a list of calls puts into the queue: the vectors of its
    calls of [push], the empty ones left out. *)
Definition pushed_blocks (ops : list (Op Element)) : list (list Element) :=
  flat_map (fun op => match op with
                      | OpPush v => if empty v then [] else [v]
                      | _ => []
                      end) ops.

(** The vectors that the calls of [pull] of a list of calls return, in the
    order of the calls; a call of [pull] that waits returns nothing. *)
Fixpoint pulled_blocks (s : DataBuffer Element) (ops : list (Op Element))
  : list (list Element) :=
  match ops with
  | [] => []
  | op :: ops' =>
      match op, pull s with
      | OpPull, Some (v, _) => v :: pulled_blocks (exec_op s op) ops'
      | _, _ => pulled_blocks (exec_op s op) ops'
      end
  end.

(** The vectors of a list that are not empty. *)
Definition nonempty_blocks (vs : list (list Element)) : list (list Element) :=
  filter (fun v => negb (empty v)) vs.

End DataBufferTraces.

(** ** The source thread: [read_source_data] *)

Section SourceThread.

Variable IQSample : Type.

(** What one turn of the loop of [read_source_data] gets from outside: the
    stop flag at the top of the turn, and what [rtlsdr->get_samples] does,
    [None] when it returns false and [Some v] when it returns true with [v]
    in [iqsamples]. *)
Record SourceTurn : Type := mkSourceTurn {
  src_stop : bool;
  src_get_samples : option (list IQSample)
}.

Inductive SourceStatus : Type :=
| SourceReturned     (* the loop was left and [push_end] called *)
| SourceExit1        (* [get_samples] failed: [exit(1)] *)
| SourceLooping.     (* the turns given are used up, the loop goes on *)

(** [read_source_data] on the turns given, run without another thread
    touching the buffer in between. *)
Fixpoint read_source_data (turns : list SourceTurn)
    (buf : DataBuffer IQSample) : SourceStatus * DataBuffer IQSample :=
  match turns with
  | [] => (SourceLooping, buf)
  | t :: turns' =>
      if src_stop t then (SourceReturned, push_end buf)
      else
        match src_get_samples t with
        | None => (SourceExit1, buf)
        | Some iqsamples => read_source_data turns' (push buf iqsamples)
        end
  end.

(** The calls on the buffer that [read_source_data] makes on the turns
    given, in order. *)
Fixpoint source_ops (turns : list SourceTurn) : list (Op IQSample) :=
  match turns with
  | [] => []
  | t :: turns' =>
      if src_stop t then [OpPushEnd]
      else
        match src_get_samples t with
        | None => []
        | Some iqsamples => OpPush iqsamples :: source_ops turns'
        end
  end.

Definition is_push_op (op : Op IQSample) : bool :=
  match op with OpPush _ => true | _ => false end.

(** The blocks fetched in the turns before the loop is left. *)
Fixpoint fetched_blocks (turns : list SourceTurn) : list (list IQSample) :=
  match turns with
  | [] => []
  | t :: turns' =>
      if src_stop t then []
      else
        match src_get_samples t with
        | None => []
        | Some iqsamples => iqsamples :: fetched_blocks turns'
        end
  end.

End SourceThread.

(** ** From the main loop to the output thread *)

Section OutputPath.

Context {D : Type}.

(** What an event of the main loop does to the output buffer. *)
Definition apply_output_event (buf : DataBuffer D) (e : Event D)
  : DataBuffer D :=
  match e with
  | OutPush samples => push buf samples
  | _ => buf
  end.

(** The output buffer after the events of the main loop and the shutdown
    of [main], when the output thread has pulled nothing meanwhile. *)
Definition output_buffer_after (outputbuf : Z) (evs : list (Event D))
  : DataBuffer D :=
  main_shutdown outputbuf (fold_left apply_output_event evs DataBuffer_new).

End OutputPath.

(** ** Reading the options *)

Definition LONG_MAX : Z := 9223372036854775807.
Definition LONG_MIN : Z := -9223372036854775808.
Definition INT_MIN : Z := -2147483648.

Definition char_code (c : ascii) : Z := Z.of_N (N_of_ascii c).

(** [isspace] and [isdigit] of the C locale. *)
Definition isspace (c : ascii) : bool :=
  (char_code c =? 32) || ((9 <=? char_code c) && (char_code c <=? 13)).

Definition isdigit (c : ascii) : bool :=
  (48 <=? char_code c) && (char_code c <=? 57).

(** The C string from an offset on. *)
Fixpoint string_drop (n : nat) (s : string) : string :=
  match n, s with
  | S n', String _ s' => string_drop n' s'
  | _, _ => s
  end.

(** [*p == '\0']: the C string ends at [p]. *)
Definition at_nul (s : string) : bool :=
  match s with
  | EmptyString => true
  | String c _ => char_code c =? 0
  end.

Fixpoint skip_spaces (s : string) : nat :=
  match s with
  | String c s' => if isspace c then S (skip_spaces s') else O
  | EmptyString => O
  end.

(** The decimal digits at the start of [s], read onto [acc]: the value and
    the number of digits. *)
Fixpoint read_digits (acc : Z) (s : string) : Z * nat :=
  match s with
  | String c s' =>
      if isdigit c then
        let (v, n) := read_digits (10 * acc + (char_code c - 48)) s' in
        (v, S n)
      else (acc, O)
  | EmptyString => (acc, O)
  end.

(** [strtol(s, &endp, 10)] of the C library, with a 64-bit [long]: white
    space, an optional sign and decimal digits; the value is clamped to the
    range of [long]; without a digit nothing is converted and [endp] is [s].
    The result is the value and the offset of [endp] from [s]. *)
Definition strtol (s : string) : Z * nat :=
  let nsp := skip_spaces s in
  let s1 := string_drop nsp s in
  let '(neg, nsign) :=
    match s1 with
    | String c _ =>
        if char_code c =? 45 then (true, 1%nat)
        else if char_code c =? 43 then (false, 1%nat)
        else (false, O)
    | EmptyString => (false, O)
    end in
  let '(v, nd) := read_digits 0 (string_drop nsign s1) in
  match nd with
  | O => (0, O)
  | _ => (Z.max LONG_MIN (Z.min LONG_MAX (if neg then - v else v)),
          (nsp + nsign + nd)%nat)
  end.

(** [parse_opt(const char *s, int& v)]: [Some v] when it returns true. *)
Definition parse_opt_int (s : string) : option Z :=
  let '(t, n) := strtol s in
  if Nat.eqb n 0 || negb (at_nul (string_drop n s))
     || (t <? INT_MIN) || (INT_MAX <? t)
  then None else Some t.

(** A string that does not go on with a digit. *)
Definition no_digit_ahead (s : string) : Prop :=
  match s with
  | EmptyString => True
  | String c _ => isdigit c = false
  end.

(** The string of a list of characters. *)
Fixpoint string_of_chars (cs : list ascii) : string :=
  match cs with
  | [] => EmptyString
  | c :: cs' => String c (string_of_chars cs')
  end.

(** The number that a list of decimal digits writes, read onto [acc]. *)
Definition digits_value (acc : Z) (cs : list ascii) : Z :=
  fold_left (fun a c => 10 * a + (char_code c - 48)) cs acc.

Section CommandLine.

(** [strtod] of the C library, which is not modelled: the value and the
    offset of [endp] from the string. *)
Variable strtod : string -> float * nat.

(** [parse_opt(const char *s, double& v)]: [Some v] when it returns true. *)
Definition parse_opt_double (s : string) : option float :=
  let '(v, n) := strtod s in
  if negb (Nat.eqb n 0) && at_nul (string_drop n s) then Some v else None.

(** The variables of [main] that the options set. *)
Record Settings : Type := mkSettings {
  opts : Options float;
  freq : float;
  devidx : Z;
  ifrate : float;
  alsadev : string
}.

Definition default_settings : Settings :=
  {| opts := default_options; freq := (-1)%float; devidx := 0;
     ifrate := 1000000%float; alsadev := "default" |}.

(** What [getopt_long] returns for the option string
    ["f:d:s:r:MR:W:P::b:"]: the option and its argument; [-P] may come
    without one. *)
Inductive CmdOption : Type :=
| Opt_f (optarg : string)
| Opt_d (optarg : string)
| Opt_s (optarg : string)
| Opt_r (optarg : string)
| Opt_M
| Opt_R (optarg : string)
| Opt_W (optarg : string)
| Opt_P (optarg : option string)
| Opt_b (optarg : string)
| Opt_other.

Inductive OptResult : Type :=
| OptOk (s : Settings)
| OptBadArg (label : string)       (* [badarg(label)]: usage, [exit(1)] *)
| OptUnknown.                      (* "Unknown option": usage, [exit(1)] *)

Definition set_opts (s : Settings) (o : Options float) : Settings :=
  {| opts := o; freq := freq s; devidx := devidx s; ifrate := ifrate s;
     alsadev := alsadev s |}.

(** The [switch] of the option loop. *)
Definition handle_option (c : CmdOption) (s : Settings) : OptResult :=
  match c with
  | Opt_f optarg =>
      match parse_opt_double optarg with
      | Some v =>
          if PrimFloat.leb v 0 then OptBadArg "-f"
          else OptOk {| opts := opts s; freq := v; devidx := devidx s;
                        ifrate := ifrate s; alsadev := alsadev s |}
      | None => OptBadArg "-f"
      end
  | Opt_d optarg =>
      match parse_opt_int optarg with
      | Some v =>
          if v <? 0 then OptBadArg "-d"
          else OptOk {| opts := opts s; freq := freq s; devidx := v;
                        ifrate := ifrate s; alsadev := alsadev s |}
      | None => OptBadArg "-d"
      end
  | Opt_s optarg =>
      match parse_opt_double optarg with
      | Some v =>
          if PrimFloat.leb v 0 then OptBadArg "-s"
          else OptOk {| opts := opts s; freq := freq s; devidx := devidx s;
                        ifrate := v; alsadev := alsadev s |}
      | None => OptBadArg "-s"
      end
  | Opt_r optarg =>
      match parse_opt_int optarg with
      | Some v =>
          if v <? 1 then OptBadArg "-r"
          else OptOk (set_opts s
                        {| pcmrate := v; stereo := stereo (opts s);
                           outmode := outmode (opts s);
                           filename := filename (opts s);
                           bufsecs := bufsecs (opts s) |})
      | None => OptBadArg "-r"
      end
  | Opt_M =>
      OptOk (set_opts s
               {| pcmrate := pcmrate (opts s); stereo := false;
                  outmode := outmode (opts s);
                  filename := filename (opts s);
                  bufsecs := bufsecs (opts s) |})
  | Opt_R optarg =>
      OptOk (set_opts s
               {| pcmrate := pcmrate (opts s); stereo := stereo (opts s);
                  outmode := MODE_RAW; filename := optarg;
                  bufsecs := bufsecs (opts s) |})
  | Opt_W optarg =>
      OptOk (set_opts s
               {| pcmrate := pcmrate (opts s); stereo := stereo (opts s);
                  outmode := MODE_WAV; filename := optarg;
                  bufsecs := bufsecs (opts s) |})
  | Opt_P optarg =>
      OptOk {| opts := {| pcmrate := pcmrate (opts s);
                          stereo := stereo (opts s);
                          outmode := MODE_ALSA;
                          filename := filename (opts s);
                          bufsecs := bufsecs (opts s) |};
               freq := freq s; devidx := devidx s; ifrate := ifrate s;
               alsadev := match optarg with
                          | Some dev => dev
                          | None => alsadev s
                          end |}
  | Opt_b optarg =>
      match parse_opt_double optarg with
      | Some v =>
          if PrimFloat.ltb v 0 then OptBadArg "-b"
          else OptOk (set_opts s
                        {| pcmrate := pcmrate (opts s);
                           stereo := stereo (opts s);
                           outmode := outmode (opts s);
                           filename := filename (opts s);
                           bufsecs := v |})
      | None => OptBadArg "-b"
      end
  | Opt_other => OptUnknown
  end.

(** The option loop over what [getopt_long] returns in turn. *)
Fixpoint option_loop (cs : list CmdOption) (s : Settings) : OptResult :=
  match cs with
  | [] => OptOk s
  | c :: cs' =>
      match handle_option c s with
      | OptOk s' => option_loop cs' s'
      | err => err
      end
  end.

(** The output mode that a list of options selects, from [mode] on: that of
    the last of [-R], [-W] and [-P]. *)
Fixpoint selected_mode (mode : OutputMode) (cs : list CmdOption)
  : OutputMode :=
  match cs with
  | [] => mode
  | Opt_R _ :: cs' => selected_mode MODE_RAW cs'
  | Opt_W _ :: cs' => selected_mode MODE_WAV cs'
  | Opt_P _ :: cs' => selected_mode MODE_ALSA cs'
  | _ :: cs' => selected_mode mode cs'
  end.

Definition is_Opt_f (c : CmdOption) : bool :=
  match c with Opt_f _ => true | _ => false end.

Definition is_Opt_M (c : CmdOption) : bool :=
  match c with Opt_M => true | _ => false end.

Definition is_Opt_b (c : CmdOption) : bool :=
  match c with Opt_b _ => true | _ => false end.

(** "ALSA output, or raw output to the file name [-]". *)
Definition interactive_output (o : Options float) : bool :=
  OutputMode_eqb (outmode o) MODE_ALSA ||
  (OutputMode_eqb (outmode o) MODE_RAW && String.eqb (filename o) "-").

(** The two checks after the option loop, [default_bandwidth_if] being the
    constant of [FmDecoder]: [Some] of the message when [main] exits. *)
Definition check_settings (default_bandwidth_if : float) (s : Settings)
  : option string :=
  if PrimFloat.leb (freq s) 0 then Some "Specify a tuning frequency"%string
  else if PrimFloat.ltb (ifrate s)
            (PrimFloat.mul 3 default_bandwidth_if)
  then Some "IF sample rate must be at least"%string
  else None.

End CommandLine.

(** * Properties of [DataBuffer] *)

Section DataBufferFacts.

Variable Element : Type.
Implicit Types (s : DataBuffer Element) (v : list Element)
               (q : list (list Element)).

Lemma vsize_nonneg : forall v, 0 <= vsize v.
Proof. intro v. unfold vsize. lia. Qed.

Lemma vsize_pos : forall v, v <> [] -> 0 < vsize v.
Proof. intros [|x v] H; [congruence|]. unfold vsize. simpl List.length. lia. Qed.

Lemma total_size_nonneg : forall q, 0 <= total_size q.
Proof.
  induction q as [|v q IH]; simpl; [lia|].
  pose proof (vsize_nonneg v). lia.
Qed.

Lemma total_size_app : forall q q',
    total_size (q ++ q') = total_size q + total_size q'.
Proof. induction q as [|v q IH]; intro q'; simpl; [|rewrite IH]; lia. Qed.

Lemma total_size_zero_empty : forall q,
    Forall (fun v => v <> []) q -> total_size q = 0 -> q = [].
Proof.
  intros [|v q] Hne Hz; [reflexivity|].
  inversion Hne as [|? ? Hv Hq]; subst. simpl in Hz.
  pose proof (vsize_pos Hv). pose proof (total_size_nonneg q). lia.
Qed.

Lemma wrap_size_t_small : forall z,
    0 <= z < size_t_modulus -> wrap_size_t z = z.
Proof. intros z H. unfold wrap_size_t. apply Z.mod_small. exact H. Qed.

(** *** The invariant along the calls *)

Lemma buffer_inv_new : buffer_inv (@DataBuffer_new Element).
Proof. split; [reflexivity | constructor]. Qed.

Lemma buffer_inv_push : forall s v, buffer_inv s -> buffer_inv (push s v).
Proof.
  intros s [|x v] [Hlen Hne]; [split; assumption|].
  unfold push; simpl negb; cbv iota. split; simpl.
  - rewrite Hlen, total_size_app. simpl total_size. unfold wrap_size_t.
    rewrite ?Z.add_0_r. apply Zplus_mod_idemp_l.
  - apply Forall_app. split; [assumption|].
    constructor; [discriminate | constructor].
Qed.

Lemma buffer_inv_push_end : forall s, buffer_inv s -> buffer_inv (push_end s).
Proof. intros s H. exact H. Qed.

Lemma pull_inv : forall s v s',
    buffer_inv s -> pull s = Some (v, s') ->
    buffer_inv s' /\ m_end_marked s' = m_end_marked s /\
    m_queue s = (if empty v then [] else [v]) ++ m_queue s'.
Proof.
  intros s v s' [Hlen Hne] Hp. unfold pull in Hp.
  destruct (m_queue s) as [|front rest] eqn:Hq; simpl in Hp.
  - destruct (m_end_marked s) eqn:He; simpl in Hp; [|discriminate].
    inversion Hp; subst. simpl.
    split; [split; rewrite Hq; [exact Hlen | exact Hne] | split; [exact He | simpl; rewrite ?Hq; reflexivity]].
  - inversion Hp; subst. inversion Hne as [|? ? Hv Hrest]; subst.
    simpl. destruct v as [|x v]; [congruence|]. simpl.
    split; [split; [|exact Hrest] | split; reflexivity].
    cbn [m_qlen m_queue]. rewrite Hlen. cbn [total_size]. unfold wrap_size_t.
    rewrite Zminus_mod_idemp_l. f_equal. lia.
Qed.

Lemma buffer_inv_exec_op : forall s op,
    buffer_inv s -> buffer_inv (exec_op s op).
Proof.
  intros s [v| | | | |n] H; simpl; try assumption.
  - apply buffer_inv_push; assumption.
  - destruct (pull s) as [[v s']|] eqn:Hp; [|assumption].
    apply (pull_inv H Hp).
Qed.

Lemma buffer_inv_run_ops : forall ops s,
    buffer_inv s -> buffer_inv (run_ops s ops).
Proof.
  induction ops as [|op ops IH]; intros s H; simpl; [assumption|].
  apply IH, buffer_inv_exec_op, H.
Qed.

(** A buffer that satisfies the invariant and whose elements a [size_t] can
    count has the exact count, and is empty when the count is 0. *)
Lemma qlen_exact : forall s,
    buffer_inv s -> fits_size_t s -> m_qlen s = total_size (m_queue s).
Proof.
  intros s [Hlen _] Hfit. rewrite Hlen. apply wrap_size_t_small.
  split; [apply total_size_nonneg | exact Hfit].
Qed.

Lemma qlen_zero_empty : forall s,
    buffer_inv s -> fits_size_t s -> m_qlen s = 0 -> m_queue s = [].
Proof.
  intros s Hinv Hfit Hz. apply total_size_zero_empty; [apply Hinv|].
  rewrite <- (qlen_exact Hinv Hfit). exact Hz.
Qed.

(** *** Pushing and pulling whole lists of blocks *)

Lemma push_all_queue : forall blocks s,
    Forall (fun v => v <> []) blocks ->
    m_queue (push_all s blocks) = m_queue s ++ blocks /\
    m_end_marked (push_all s blocks) = m_end_marked s.
Proof.
  induction blocks as [|v blocks IH]; intros s Hne; simpl.
  - rewrite app_nil_r. split; reflexivity.
  - inversion Hne as [|? ? Hv Hrest]; subst.
    destruct (IH (push s v) Hrest) as [Hq He]. fold (push_all (push s v) blocks).
    rewrite Hq, He. destruct v as [|x v]; [congruence|]. simpl.
    rewrite <- app_assoc. split; reflexivity.
Qed.

Lemma buffer_inv_push_all : forall blocks s,
    buffer_inv s -> buffer_inv (push_all s blocks).
Proof.
  induction blocks as [|v blocks IH]; intros s H; simpl; [assumption|].
  apply IH, buffer_inv_push, H.
Qed.

(** One thread pulling as many times as there are queued blocks gets the
    queue, front first, and leaves the buffer empty with count 0. *)
Lemma pull_n_drains : forall q s,
    buffer_inv s -> m_queue s = q ->
    exists s', pull_n (List.length q) s = Some (q, s') /\
               m_queue s' = [] /\ m_qlen s' = 0 /\
               m_end_marked s' = m_end_marked s.
Proof.
  induction q as [|v q IH]; intros s Hinv Hq; simpl.
  - exists s. repeat split; try assumption.
    destruct Hinv as [Hlen _]. rewrite Hlen, Hq. reflexivity.
  - assert (Hp : pull s = Some (v, {| m_qlen := wrap_size_t (m_qlen s - vsize v);
                                      m_end_marked := m_end_marked s;
                                      m_queue := q |})).
    { unfold pull. rewrite Hq. reflexivity. }
    rewrite Hp. destruct (pull_inv Hinv Hp) as [Hinv' _].
    destruct (IH _ Hinv' eq_refl) as [s' [Hn [Hq' [Hl' He']]]].
    exists s'. rewrite Hn. repeat split; assumption.
Qed.

(** A closed and empty buffer answers every [pull] at once with the empty
    vector and stays as it is. *)
Lemma pull_closed_empty : forall s,
    m_queue s = [] -> m_end_marked s = true -> pull s = Some ([], s).
Proof. intros s Hq He. unfold pull. rewrite Hq, He. reflexivity. Qed.

Lemma pull_n_closed_empty : forall n s,
    m_queue s = [] -> m_end_marked s = true ->
    pull_n n s = Some (repeat [] n, s).
Proof.
  induction n as [|n IH]; intros s Hq He; simpl; [reflexivity|].
  rewrite (pull_closed_empty s Hq He), (IH s Hq He). reflexivity.
Qed.

Lemma pull_n_app : forall n m s vs s' ws s'',
    pull_n n s = Some (vs, s') -> pull_n m s' = Some (ws, s'') ->
    pull_n (n + m) s = Some (vs ++ ws, s'').
Proof.
  induction n as [|n IH]; intros m s vs s' ws s'' Hn Hm; simpl in *.
  - inversion Hn; subst. exact Hm.
  - destruct (pull s) as [[v s1]|]; [|discriminate].
    destruct (pull_n n s1) as [[vs1 s2]|] eqn:H1; [|discriminate].
    inversion Hn; subst. rewrite (IH _ _ _ _ _ _ H1 Hm). reflexivity.
Qed.

End DataBufferFacts.

Section DataBufferClaims.

Variable Element : Type.
Implicit Types (s : DataBuffer Element) (v : list Element).

(** The end mark, once set, stays set. *)
Lemma end_marked_exec_op : forall s (op : Op Element),
    m_end_marked s = true -> m_end_marked (exec_op s op) = true.
Proof.
  intros s [v| | | | |n] H; simpl; try assumption; try reflexivity.
  - unfold push. destruct (negb (empty v)); simpl; assumption.
  - unfold pull. destruct (m_queue s) as [|front rest]; simpl.
    + rewrite H. simpl. exact H.
    + exact H.
Qed.

Lemma flags_after_end : forall (ops : list (Op Element)) s,
    m_end_marked s = true ->
    rises_from true (map (@m_end_marked Element) (states_of s ops)) = O /\
    falls_from true (map (@m_end_marked Element) (states_of s ops)) = O.
Proof.
  induction ops as [|op ops IH]; intros s H; simpl; [split; reflexivity|].
  rewrite (end_marked_exec_op s op H). simpl.
  apply IH, end_marked_exec_op, H.
Qed.

Lemma flags_monotone : forall (ops : list (Op Element)) s,
    (rises_from (m_end_marked s)
       (map (@m_end_marked Element) (states_of s ops)) <= 1)%nat /\
    falls_from (m_end_marked s)
       (map (@m_end_marked Element) (states_of s ops)) = O.
Proof.
  induction ops as [|op ops IH]; intro s; simpl; [split; [lia|reflexivity]|].
  destruct (m_end_marked s) eqn:He.
  - rewrite (end_marked_exec_op s op He). simpl.
    destruct (flags_after_end ops _ (end_marked_exec_op s op He)) as [Hr Hf].
    rewrite Hr, Hf. split; [lia|reflexivity].
  - destruct (m_end_marked (exec_op s op)) eqn:He'; simpl.
    + destruct (flags_after_end ops _ He') as [Hr Hf].
      rewrite Hr, Hf. split; [lia|reflexivity].
    + specialize (IH (exec_op s op)). rewrite He' in IH. exact IH.
Qed.

(** C1. Any list of non-empty blocks pushed into a new buffer and followed
    by one [push_end] comes out of the successive calls of [pull] block by
    block, unchanged and in the order of the pushes, followed by the empty
    vector that marks the end; the calls never wait; after them
    [pull_end_reached] is true; and the elements pulled are as many as the
    elements pushed. *)
Theorem fifo_push_close_pull : forall blocks : list (list Element),
    Forall (fun v => v <> []) blocks ->
    exists s',
      pull_n (S (List.length blocks))
             (push_end (push_all DataBuffer_new blocks))
      = Some (blocks ++ [[]], s') /\
      pull_end_reached s' = true /\
      total_size (blocks ++ [[]]) = total_size blocks.
Proof.
  intros blocks Hne.
  set (s := push_end (push_all DataBuffer_new blocks)).
  assert (Hinv : buffer_inv s).
  { apply buffer_inv_push_end, buffer_inv_push_all, buffer_inv_new. }
  assert (Hq : m_queue s = blocks).
  { unfold s. simpl. apply (push_all_queue DataBuffer_new Hne). }
  destruct (pull_n_drains Hinv Hq) as [s' [Hn [Hq' [Hl' He']]]].
  assert (He : m_end_marked s' = true) by (rewrite He'; reflexivity).
  exists s'. split; [|split].
  - replace (S (List.length blocks)) with (List.length blocks + 1)%nat by lia.
    eapply pull_n_app; [exact Hn|]. simpl.
    rewrite (pull_closed_empty s' Hq' He). reflexivity.
  - unfold pull_end_reached. rewrite Hl', He. reflexivity.
  - rewrite total_size_app. simpl. unfold vsize. simpl. lia.
Qed.

(** C2. In every buffer that a sequence of calls of [push], [pull],
    [push_end], [queued_samples], [pull_end_reached] and [wait_buffer_fill]
    leads to from a new buffer: [m_qlen] is the number of queued elements
    in [size_t] arithmetic, hence that number itself whenever a [size_t]
    can hold it; along the calls [m_end_marked] goes from false to true at
    most once and never from true to false; and when the end is marked and
    the count is 0, every further [pull] returns the empty vector at once
    and leaves the buffer as it is. *)
Theorem buffer_invariants : forall ops : list (Op Element),
    let s := run_ops DataBuffer_new ops in
    m_qlen s = wrap_size_t (total_size (m_queue s)) /\
    (fits_size_t s -> m_qlen s = total_size (m_queue s)) /\
    (rises_from false
       (map (@m_end_marked Element) (states_of DataBuffer_new ops)) <= 1)%nat /\
    falls_from false
       (map (@m_end_marked Element) (states_of DataBuffer_new ops)) = O /\
    (fits_size_t s -> m_end_marked s = true -> m_qlen s = 0 ->
     forall n, pull_n n s = Some (repeat [] n, s)).
Proof.
  intros ops s.
  assert (Hinv : buffer_inv s).
  { apply buffer_inv_run_ops, buffer_inv_new. }
  split; [apply Hinv|].
  split; [intro Hfit; apply (qlen_exact Hinv Hfit)|].
  split; [apply (flags_monotone ops DataBuffer_new)|].
  split; [apply (flags_monotone ops DataBuffer_new)|].
  intros Hfit He Hz n.
  apply pull_n_closed_empty; [|exact He].
  apply (qlen_zero_empty Hinv Hfit Hz).
Qed.

(** C7. [wait_buffer_fill(n)] returns when the count is at least [n],
    marked end or not, and returns when the end is marked, whatever [n] and
    the count are; it waits in the one remaining case, and it never changes
    the buffer. *)
Theorem wait_buffer_fill_returns : forall s (minfill : Z),
    (minfill <= m_qlen s -> wait_buffer_fill s minfill = Some tt) /\
    (m_end_marked s = true -> wait_buffer_fill s minfill = Some tt) /\
    (wait_buffer_fill s minfill = None <->
     m_qlen s < minfill /\ m_end_marked s = false).
Proof.
  intros s minfill. unfold wait_buffer_fill.
  destruct (Z.ltb_spec (m_qlen s) minfill) as [Hlt|Hge];
    destruct (m_end_marked s); simpl;
    repeat split; intros; try reflexivity; try discriminate; try lia;
    try (exfalso; intuition (congruence || lia)).
Qed.

(** C9. [push] of an empty vector returns the buffer it was given: the
    count, the end mark and the queue are those of before. *)
Theorem push_empty_noop : forall s,
    push s [] = s /\
    m_qlen (push s []) = m_qlen s /\
    m_end_marked (push s []) = m_end_marked s /\
    m_queue (push s []) = m_queue s.
Proof. intro s. repeat split. Qed.

End DataBufferClaims.

(** Scenario A of the specification: [push([1,2,3]); push([4,5]); close()],
    then three pulls. *)
Lemma fifo_scenario_A :
  Forall (fun v : list Z => v <> []) [[1; 2; 3]; [4; 5]] /\
  exists s',
    pull_n 3 (push_end (push_all DataBuffer_new [[1; 2; 3]; [4; 5]]))
    = Some ([[1; 2; 3]; [4; 5]] ++ [[]], s') /\
    pull_end_reached s' = true /\
    total_size ([[1; 2; 3]; [4; 5]] ++ [[]]) = total_size [[1; 2; 3]; [4; 5]].
Proof.
  split.
  - repeat constructor; discriminate.
  - apply (@fifo_push_close_pull Z [[1; 2; 3]; [4; 5]]).
    repeat constructor; discriminate.
Defined.

(** The same scenario, call by call. *)
Example scenario_A_calls :
  let s0 := push_end (push (push DataBuffer_new [1; 2; 3]) [4; 5]) in
  let s1 := {| m_qlen := 2; m_end_marked := true; m_queue := [[4; 5]] |} in
  let s2 := {| m_qlen := 0; m_end_marked := true; m_queue := [] |} in
  pull s0 = Some ([1; 2; 3], s1) /\
  pull s1 = Some ([4; 5], s2) /\
  pull s2 = Some ([], s2) /\
  pull_end_reached s2 = true.
Proof. repeat split. Qed.

(** A run of calls that ends in a closed and drained buffer, on which two
    more pulls return the empty vector. *)
Lemma buffer_invariants_run :
  let ops := [OpPush [7; 8]; OpQueuedSamples; OpPull; OpPushEnd;
              OpPullEndReached; OpPull] in
  let s := run_ops DataBuffer_new ops in
  m_qlen s = total_size (m_queue s) /\
  pull_n 2 s = Some ([[]; []], s).
Proof.
  pose proof (@buffer_invariants Z
                [OpPush [7; 8]; OpQueuedSamples; OpPull; OpPushEnd;
                 OpPullEndReached; OpPull]) as H.
  cbv zeta in H. destruct H as [_ [Hexact [_ [_ Hpull]]]].
  split.
  - apply Hexact. reflexivity.
  - apply (Hpull eq_refl eq_refl eq_refl 2%nat).
Defined.

(** * Properties of the output thread *)

Section OutputThreadFacts.

Variable Sample : Type.
Implicit Types (buf : DataBuffer Sample).

Lemma fits_size_t_pull : forall buf v buf',
    buffer_inv buf -> fits_size_t buf -> pull buf = Some (v, buf') ->
    fits_size_t buf'.
Proof.
  intros buf v buf' Hinv Hfit Hp.
  destruct (pull_inv Hinv Hp) as [_ [_ Hq]].
  unfold fits_size_t in *. rewrite Hq, total_size_app in Hfit.
  pose proof (total_size_nonneg (if empty v then [] else [v])). lia.
Qed.

(** A turn that sees the stop flag leaves the loop and touches nothing. *)
Lemma write_output_data_stop : forall fuel stop_flag k buf minfill written,
    stop_flag k = true ->
    write_output_data (S fuel) stop_flag k buf minfill written
    = (Exited, buf, written).
Proof.
  intros fuel stop_flag k buf minfill written H. simpl.
  unfold write_output_iter. rewrite H. reflexivity.
Qed.

(** While the stop flag is not seen, a closed buffer is emptied block by
    block, and then the thread leaves the loop at [pull_end_reached]. *)
Lemma write_output_data_drains : forall q buf stop_flag k minfill written,
    buffer_inv buf -> fits_size_t buf -> m_end_marked buf = true ->
    m_queue buf = q -> (forall i, stop_flag i = false) ->
    exists buf',
      write_output_data (S (List.length q)) stop_flag k buf minfill written
      = (Exited, buf', written ++ q) /\
      m_queue buf' = [] /\ pull_end_reached buf' = true.
Proof.
  induction q as [|v q IH];
    intros buf stop_flag k minfill written Hinv Hfit He Hq Hstop.
  - exists buf.
    assert (Hz : m_qlen buf = 0).
    { destruct Hinv as [Hlen _]. rewrite Hlen, Hq. reflexivity. }
    assert (Hend : pull_end_reached buf = true).
    { unfold pull_end_reached. rewrite Hz, He. reflexivity. }
    cbn [write_output_data List.length]. unfold write_output_iter.
    rewrite Hstop. unfold queued_samples, wait_buffer_fill.
    rewrite Hz, He, Hend. rewrite Bool.andb_false_r. cbn.
    rewrite app_nil_r. repeat split; assumption.
  - assert (Hv : v <> []).
    { destruct Hinv as [_ Hne]. rewrite Hq in Hne.
      inversion Hne; assumption. }
    assert (Hnz : (m_qlen buf =? 0) = false).
    { apply Z.eqb_neq. rewrite (qlen_exact Hinv Hfit), Hq. simpl.
      pose proof (vsize_pos Hv). pose proof (total_size_nonneg q). lia. }
    assert (Hp : pull buf
                 = Some (v, {| m_qlen := wrap_size_t (m_qlen buf - vsize v);
                               m_end_marked := m_end_marked buf;
                               m_queue := q |})).
    { unfold pull. rewrite Hq. reflexivity. }
    destruct (pull_inv Hinv Hp) as [Hinv' _].
    pose proof (fits_size_t_pull Hinv Hfit Hp) as Hfit'.
    destruct (IH _ stop_flag (S k) minfill (written ++ [v])
                 Hinv' Hfit' He eq_refl Hstop) as [buf' [Hrun Hrest]].
    exists buf'. split; [|exact Hrest].
    cbn [List.length]. remember (S (List.length q)) as fuel.
    cbn [write_output_data]. unfold write_output_iter.
    rewrite Hstop. unfold queued_samples, pull_end_reached.
    rewrite Hnz, Hp. cbn [andb]. rewrite Hrun, <- app_assoc. reflexivity.
Qed.

(** C3, as the program has it. The loop of [write_output_data] is left in
    two ways: by a turn that finds [stop_flag] set, which pulls and writes
    nothing and leaves what is queued in the buffer; or, the flag not being
    set and the wait for the minimum fill being over, by a turn that finds
    [pull_end_reached].  A turn that does neither and does not wait pulls
    one block and writes it.  As long as the stop flag is not seen, a
    closed buffer is written out completely and in order before the thread
    leaves the loop. *)
Theorem output_thread_exits : forall buf (minfill : Z),
    (forall fuel stop_flag k written,
        stop_flag k = true ->
        write_output_data (S fuel) stop_flag k buf minfill written
        = (Exited, buf, written)) /\
    (forall stop,
        (write_output_iter stop buf minfill = ExitStop <-> stop = true) /\
        (write_output_iter stop buf minfill = ExitEnd ->
         stop = false /\ pull_end_reached buf = true /\
         (m_qlen buf = 0 -> wait_buffer_fill buf minfill = Some tt))) /\
    (forall v buf',
        (m_qlen buf = 0 -> wait_buffer_fill buf minfill = Some tt) ->
        pull_end_reached buf = false -> pull buf = Some (v, buf') ->
        write_output_iter false buf minfill = Wrote v buf') /\
    (buffer_inv buf -> fits_size_t buf -> m_end_marked buf = true ->
     forall stop_flag k written,
       (forall i, stop_flag i = false) ->
       exists buf',
         write_output_data (S (List.length (m_queue buf))) stop_flag k
                           buf minfill written
         = (Exited, buf', written ++ m_queue buf) /\
         m_queue buf' = [] /\ pull_end_reached buf' = true).
Proof.
  intros buf minfill. split; [|split; [|split]].
  - intros. apply write_output_data_stop. assumption.
  - intro stop. unfold write_output_iter, queued_samples.
    destruct stop; [split; [split; reflexivity | discriminate]|].
    split; [split; [|discriminate]|].
    + destruct (m_qlen buf =? 0);
        [destruct (wait_buffer_fill buf minfill); [|discriminate]|];
        (destruct (pull_end_reached buf); [discriminate|]);
        (destruct (pull buf) as [[? ?]|]; discriminate).
    + destruct (Z.eqb_spec (m_qlen buf) 0) as [Hz|Hnz].
      * destruct (wait_buffer_fill buf minfill) as [[]|]; [|discriminate].
        destruct (pull_end_reached buf); [repeat split|].
        destruct (pull buf) as [[? ?]|]; discriminate.
      * destruct (pull_end_reached buf);
          [repeat split; intro; contradiction|].
        destruct (pull buf) as [[? ?]|]; discriminate.
  - intros v buf' Hwait Hend Hp. unfold write_output_iter, queued_samples.
    destruct (Z.eqb_spec (m_qlen buf) 0) as [Hz|Hnz].
    + rewrite (Hwait Hz), Hend, Hp. reflexivity.
    + rewrite Hend, Hp. reflexivity.
  - intros Hinv Hfit He stop_flag k written Hstop.
    apply write_output_data_drains; auto.
Qed.

End OutputThreadFacts.

(** C3, as the specification has it, fails.  First run, the shutdown after
    a signal: three blocks are queued, the main thread has closed the buffer
    and the stop flag is set; the output thread returns at the top of its
    next turn, nothing is written, the three blocks stay in the buffer and
    [pull_end_reached] is false.  Second run: the buffer is not closed and
    the flag is first seen at the top of the second turn; the thread writes
    one block and returns, with two blocks queued and no end marked. *)
Lemma output_thread_leaves_queued_blocks :
  let closed :=
    main_shutdown 48000 (push_all DataBuffer_new [[1; 2]; [3]; [4; 5; 6]]) in
  let open := push_all DataBuffer_new [[1; 2]; [3]; [4; 5; 6]] in
  let rest := {| m_qlen := 4; m_end_marked := false;
                 m_queue := [[3]; [4; 5; 6]] |} in
  (write_output_data 10 (fun _ => true) 0 closed 48000 []
   = (Exited, closed, []) /\
   m_queue closed = [[1; 2]; [3]; [4; 5; 6]] /\
   pull_end_reached closed = false) /\
  (write_output_data 10 (fun k => Nat.leb 1 k) 0 open 48000 []
   = (Exited, rest, [[1; 2]]) /\
   pull_end_reached rest = false).
Proof. repeat split. Qed.

(** A closed buffer of three blocks, with the stop flag never seen. *)
Lemma output_thread_drains_run :
  let buf := push_end (push_all DataBuffer_new [[1; 2]; [3]; [4; 5; 6]]) in
  exists buf',
    write_output_data 4 (fun _ => false) 0 buf 48000 []
    = (Exited, buf', [[1; 2]; [3]; [4; 5; 6]]) /\
    m_queue buf' = [] /\ pull_end_reached buf' = true.
Proof.
  cbv zeta.
  destruct (@output_thread_exits Z
              (push_end (push_all DataBuffer_new [[1; 2]; [3]; [4; 5; 6]]))
              48000) as [_ [_ [_ Hdrain]]].
  apply (Hdrain (buffer_inv_push_end
                   (buffer_inv_push_all _ (buffer_inv_new Z)))
                eq_refl eq_refl (fun _ => false) 0%nat []).
  intro i. reflexivity.
Defined.

(** * Properties of the main loop *)

Unset Implicit Arguments.

(** Case analysis on every condition of the goal. *)
Ltac case_ifs :=
  repeat match goal with
         | |- context [if ?b then _ else _] => destruct b
         end.

Section MainLoopFacts.

Context {D : Type} {ops : DoubleOps D}.
Context {IQSample : Type} {dec : Decoder D IQSample}.
Variables (ifrate : D) (outputbuf : Z).
Implicit Types (st : MainState D) (inp : IterInput IQSample)
               (inputs : list (IterInput IQSample)).

(** *** One turn *)

(** A turn that sees the stop flag does nothing. *)
Lemma main_iter_stop : forall inp st,
    in_stop inp = true -> main_iter ifrate outputbuf inp st = (Break, st, []).
Proof. intros inp st H. unfold main_iter. rewrite H. reflexivity. Qed.

(** A turn that finds the end of the input only checks the queue length. *)
Lemma main_iter_end : forall inp st,
    in_stop inp = false -> in_iq inp = [] ->
    main_iter ifrate outputbuf inp st =
    (Break,
     {| block := block st;
        inbuf_length_warning :=
          inbuf_length_warning st || backlog_check ifrate (in_queued inp);
        audio_level := audio_level st; got_stereo := got_stereo st;
        fm := fm st |},
     if negb (inbuf_length_warning st) &&
        backlog_check ifrate (in_queued inp)
     then [LogBacklogWarning] else []).
Proof.
  intros inp st Hs Hq. unfold main_iter. rewrite Hs, Hq. simpl.
  destruct (inbuf_length_warning st), (backlog_check ifrate (in_queued inp));
    reflexivity.
Qed.

(** A full turn, written out. *)
Lemma main_iter_runs : forall inp st,
    runs inp = true ->
    main_iter ifrate outputbuf inp st =
    let fm' := fst (process (fm st) (in_iq inp)) in
    let audio := snd (process (fm st) (in_iq inp)) in
    let level := level_step (audio_level st) (snd (samples_mean_rms audio)) in
    (Continue,
     {| block := wrap_uint (block st + 1);
        inbuf_length_warning :=
          inbuf_length_warning st || backlog_check ifrate (in_queued inp);
        audio_level := level;
        got_stereo := stereo_detected fm';
        fm := fm' |},
     (if negb (inbuf_length_warning st) &&
         backlog_check ifrate (in_queued inp)
      then [LogBacklogWarning] else []) ++
     [LogStatus (block st) level] ++
     (if Bool.eqb (stereo_detected fm') (got_stereo st) then []
      else [if stereo_detected fm' then LogGotStereo (get_pilot_level fm')
            else LogLostStereo]) ++
     (if 0 <? block st
      then [if 0 <? outputbuf then OutPush (adjust_gain audio d_0_5)
            else OutWrite (adjust_gain audio d_0_5)]
      else [])).
Proof.
  intros inp st H. unfold runs in H. apply Bool.andb_true_iff in H.
  destruct H as [Hs Hq]. apply Bool.negb_true_iff in Hs, Hq.
  unfold main_iter. rewrite Hs, Hq. cbv zeta.
  destruct (process (fm st) (in_iq inp)) as [fm' audio]. cbn [fst snd].
  destruct (samples_mean_rms audio) as [audio_mean audio_rms]. cbn [fst snd].
  unfold level_step.
  destruct (inbuf_length_warning st), (backlog_check ifrate (in_queued inp)),
    (stereo_detected fm'), (got_stereo st); reflexivity.
Qed.

Lemma runs_cases : forall inp,
    runs inp = false -> in_stop inp = true \/
                        (in_stop inp = false /\ in_iq inp = []).
Proof.
  intros inp H. unfold runs in H. destruct (in_stop inp); [left; reflexivity|].
  right. split; [reflexivity|]. destruct (in_iq inp); [reflexivity|discriminate].
Qed.

(** *** Reading the events of a turn *)

Lemma forwarded_app : forall evs evs' : list (Event D),
    forwarded (evs ++ evs') = forwarded evs ++ forwarded evs'.
Proof.
  induction evs as [|e evs IH]; intro evs'; [reflexivity|].
  destruct e; simpl; rewrite IH; reflexivity.
Qed.

Lemma main_iter_forwarded : forall inp st,
    runs inp = true ->
    forwarded (snd (main_iter ifrate outputbuf inp st)) =
    if 0 <? block st
    then [adjust_gain (snd (process (fm st) (in_iq inp))) d_0_5]
    else [].
Proof.
  intros inp st H. rewrite (main_iter_runs _ st H). cbv zeta. cbn [snd].
  rewrite !forwarded_app.
  case_ifs; reflexivity.
Qed.

Lemma main_iter_stereo_log : forall inp st,
    runs inp = true ->
    filter is_stereo_log (snd (main_iter ifrate outputbuf inp st)) =
    let f := fst (process (fm st) (in_iq inp)) in
    if Bool.eqb (stereo_detected f) (got_stereo st) then []
    else [if stereo_detected f then LogGotStereo (get_pilot_level f)
          else LogLostStereo].
Proof.
  intros inp st H. rewrite (main_iter_runs _ st H). cbv zeta. cbn [snd].
  rewrite !filter_app.
  case_ifs; reflexivity.
Qed.

(** The warning of a turn that does not see the stop flag. *)
Lemma main_iter_warning : forall inp st,
    in_stop inp = false ->
    filter is_backlog_warning (snd (main_iter ifrate outputbuf inp st)) =
    (if negb (inbuf_length_warning st) &&
        backlog_check ifrate (in_queued inp)
     then [LogBacklogWarning] else []) /\
    inbuf_length_warning (snd (fst (main_iter ifrate outputbuf inp st))) =
    inbuf_length_warning st || backlog_check ifrate (in_queued inp).
Proof.
  intros inp st Hs. destruct (runs inp) eqn:Hr.
  - rewrite (main_iter_runs _ st Hr). cbv zeta. cbn [snd fst].
    split; [|reflexivity]. rewrite !filter_app.
    case_ifs; reflexivity.
  - destruct (runs_cases _ Hr) as [Hs'|[_ Hq]]; [congruence|].
    rewrite (main_iter_end _ st Hs Hq). cbn [snd fst].
    split; [|reflexivity].
    destruct (negb (inbuf_length_warning st) &&
              backlog_check ifrate (in_queued inp)); reflexivity.
Qed.

End MainLoopFacts.

Section MainLoopRuns.

Context {D : Type} {ops : DoubleOps D}.
Context {IQSample : Type} {dec : Decoder D IQSample}.
Variables (ifrate : D) (outputbuf : Z).
Implicit Types (st : MainState D) (inp : IterInput IQSample)
               (inputs : list (IterInput IQSample)).

(** *** Unfolding the loop by one turn *)

Lemma main_loop_runs : forall inp inputs st,
    runs inp = true ->
    loop_events (main_loop ifrate outputbuf (inp :: inputs) st)
    = snd (main_iter ifrate outputbuf inp st)
      :: loop_events (main_loop ifrate outputbuf inputs
                                (snd (fst (main_iter ifrate outputbuf inp st))))
    /\
    loop_state (main_loop ifrate outputbuf (inp :: inputs) st)
    = loop_state (main_loop ifrate outputbuf inputs
                            (snd (fst (main_iter ifrate outputbuf inp st)))).
Proof.
  intros inp inputs st H. cbn [main_loop].
  rewrite (main_iter_runs ifrate outputbuf _ st H). cbv zeta. cbn [fst snd].
  destruct (main_loop ifrate outputbuf inputs _) as [[over st''] evs].
  split; reflexivity.
Qed.

Lemma main_loop_leaves : forall inp inputs st,
    runs inp = false ->
    loop_events (main_loop ifrate outputbuf (inp :: inputs) st)
    = [snd (main_iter ifrate outputbuf inp st)] /\
    loop_state (main_loop ifrate outputbuf (inp :: inputs) st)
    = snd (fst (main_iter ifrate outputbuf inp st)).
Proof.
  intros inp inputs st H. cbn [main_loop].
  destruct (runs_cases _ H) as [Hs|[Hs Hq]].
  - rewrite (main_iter_stop ifrate outputbuf _ st Hs). split; reflexivity.
  - rewrite (main_iter_end ifrate outputbuf _ st Hs Hq). split; reflexivity.
Qed.

(** The variables after a full turn. *)
Lemma main_iter_state : forall inp st,
    runs inp = true ->
    snd (fst (main_iter ifrate outputbuf inp st)) =
    {| block := wrap_uint (block st + 1);
       inbuf_length_warning :=
         inbuf_length_warning st || backlog_check ifrate (in_queued inp);
       audio_level :=
         level_step (audio_level st)
           (snd (samples_mean_rms (snd (process (fm st) (in_iq inp)))));
       got_stereo := stereo_detected (fst (process (fm st) (in_iq inp)));
       fm := fst (process (fm st) (in_iq inp)) |}.
Proof.
  intros inp st H.
  rewrite (main_iter_runs ifrate outputbuf _ st H). reflexivity.
Qed.

Lemma decode_all_cons : forall (f : FmDecoder) iq (iqs : list (list IQSample)),
    decode_all f (iq :: iqs)
    = snd (process f iq) :: decode_all (fst (process f iq)) iqs.
Proof. intros f iq iqs. simpl. destruct (process f iq). reflexivity. Qed.

(** *** The block counter *)

Lemma wrap_uint_succ : forall b n,
    wrap_uint (wrap_uint (b + 1) + n) = wrap_uint (b + (1 + n)).
Proof.
  intros b n. unfold wrap_uint. rewrite Zplus_mod_idemp_l. f_equal. lia.
Qed.

(** After [n] full turns the counter has advanced by [n], modulo [2 ^ 32]. *)
Lemma main_loop_block : forall inputs st,
    Forall (fun inp => runs inp = true) inputs ->
    0 <= block st < uint_modulus ->
    block (loop_state (main_loop ifrate outputbuf inputs st))
    = wrap_uint (block st + Z.of_nat (List.length inputs)).
Proof.
  induction inputs as [|inp inputs IH]; intros st Hr Hb.
  - cbn. rewrite Z.add_0_r. unfold wrap_uint. symmetry.
    apply Z.mod_small. exact Hb.
  - inversion Hr as [|? ? Hinp Hrest]; subst.
    destruct (main_loop_runs inp inputs st Hinp) as [_ Hst]. rewrite Hst.
    rewrite IH; [|exact Hrest|].
    + rewrite (main_iter_state inp st Hinp). cbn [block].
      rewrite wrap_uint_succ. f_equal.
      change (List.length (inp :: inputs)) with (S (List.length inputs)). lia.
    + rewrite (main_iter_state inp st Hinp). cbn [block]. unfold wrap_uint.
      apply Z.mod_pos_bound. reflexivity.
Qed.

(** *** The blocks handed on *)

(** With the block counter above 0 and no wrap of the counter within the
    run, every turn hands its block on, with the gain applied. *)
Lemma forwarded_from_later_block : forall inputs st,
    Forall (fun inp => runs inp = true) inputs ->
    0 < block st ->
    block st + Z.of_nat (List.length inputs) <= uint_modulus ->
    concat (map forwarded
                (loop_events (main_loop ifrate outputbuf inputs st)))
    = map (fun a => adjust_gain a d_0_5)
          (decode_all (fm st) (map (@in_iq IQSample) inputs)).
Proof.
  induction inputs as [|inp inputs IH]; intros st Hr Hb Hn; [reflexivity|].
  inversion Hr as [|? ? Hinp Hrest]; subst.
  change (List.length (inp :: inputs)) with (S (List.length inputs)) in Hn.
  destruct (main_loop_runs inp inputs st Hinp) as [Hev _]. rewrite Hev.
  cbn [map concat]. rewrite decode_all_cons. cbn [map].
  rewrite (main_iter_forwarded ifrate outputbuf _ st Hinp).
  assert (Hpos : (0 <? block st) = true) by (apply Z.ltb_lt; exact Hb).
  rewrite Hpos. cbn [app]. f_equal.
  pose proof (main_iter_state inp st Hinp) as Hst.
  destruct inputs as [|inp' inputs'] eqn:Hins; [reflexivity|].
  rewrite <- Hins in *.
  assert (Hlen : 1 <= Z.of_nat (List.length inputs)).
  { rewrite Hins. cbn [List.length]. lia. }
  assert (Hw : wrap_uint (block st + 1) = block st + 1).
  { unfold wrap_uint. apply Z.mod_small.
    change uint_modulus with 4294967296 in *. lia. }
  rewrite (IH (snd (fst (main_iter ifrate outputbuf inp st))) Hrest).
  - rewrite Hst. reflexivity.
  - rewrite Hst. cbn [block]. rewrite Hw. lia.
  - rewrite Hst. cbn [block]. rewrite Hw. lia.
Qed.

(** X1 (C4 on runs that do not wrap the counter). From the start of the
    program and for up to [2 ^ 32] turns: the first block is thrown away and
    every later block is handed on, with the gain applied. *)
Lemma forwarded_all_but_first : forall inputs fm0,
    Forall (fun inp => runs inp = true) inputs ->
    Z.of_nat (List.length inputs) <= uint_modulus ->
    concat (map forwarded
                (loop_events (main_loop ifrate outputbuf inputs
                                        (main_init fm0))))
    = tl (map (fun a => adjust_gain a d_0_5)
              (decode_all fm0 (map (@in_iq IQSample) inputs))).
Proof.
  intros [|inp inputs] fm0 Hr Hn; [reflexivity|].
  inversion Hr as [|? ? Hinp Hrest]; subst.
  change (List.length (inp :: inputs)) with (S (List.length inputs)) in Hn.
  destruct (main_loop_runs inp inputs (main_init fm0) Hinp) as [Hev _].
  rewrite Hev. cbn [map concat]. rewrite decode_all_cons. cbn [map tl].
  rewrite (main_iter_forwarded ifrate outputbuf _ (main_init fm0) Hinp).
  cbn [main_init block Z.ltb Z.compare app].
  pose proof (main_iter_state inp (main_init fm0) Hinp) as Hst.
  rewrite (forwarded_from_later_block inputs
             (snd (fst (main_iter ifrate outputbuf inp (main_init fm0))))
             Hrest).
  - rewrite Hst. reflexivity.
  - rewrite Hst. reflexivity.
  - rewrite Hst. cbn [block main_init]. change (wrap_uint (0 + 1)) with 1. lia.
Qed.

(** X2 (Scenario E of the specification). One input block, then the end
    of the input: nothing is handed on. *)
Lemma one_block_none_forwarded : forall (iq : list IQSample) fm0,
    iq <> [] ->
    concat (map forwarded
                (loop_events (main_loop ifrate outputbuf
                                        [running_input iq; end_input]
                                        (main_init fm0)))) = [].
Proof.
  intros iq fm0 Hiq.
  assert (Hinp : runs (running_input iq) = true).
  { destruct iq; [congruence|reflexivity]. }
  destruct (main_loop_runs (running_input iq) [end_input] (main_init fm0) Hinp)
    as [Hev _].
  rewrite Hev. cbn [map concat].
  rewrite (main_iter_forwarded ifrate outputbuf _ (main_init fm0) Hinp).
  cbn [main_init block Z.ltb Z.compare app].
  destruct (main_loop_leaves end_input []
              (snd (fst (main_iter ifrate outputbuf (running_input iq)
                                   (main_init fm0)))) eq_refl)
    as [Hev' _].
  rewrite Hev'.
  rewrite (main_iter_end ifrate outputbuf end_input _ eq_refl eq_refl).
  cbn [snd map concat app]. case_ifs; reflexivity.
Qed.

End MainLoopRuns.

Section MainLoopClaims.

Context {D : Type} {ops : DoubleOps D}.
Context {IQSample : Type} {dec : Decoder D IQSample}.
Variables (ifrate : D) (outputbuf : Z).
Implicit Types (st : MainState D) (inp : IterInput IQSample)
               (inputs : list (IterInput IQSample)).

Lemma Forall_runs_repeat : forall inp n,
    runs inp = true -> Forall (fun i => runs i = true) (repeat inp n).
Proof.
  intros inp n H. apply Forall_forall. intros i Hi.
  apply repeat_spec in Hi. subst. exact H.
Qed.

(** C4, where the program departs from it. [block] is an [unsigned int]:
    after 4294967296 turns it is 0 again, and the turn that follows throws
    its audio block away as the first turn did. *)
Theorem block_counter_wraps : forall (x : IQSample) (iq : list IQSample) fm0,
    let inp := running_input (x :: iq) in
    let st := loop_state (main_loop ifrate outputbuf
                            (repeat inp (Z.to_nat 4294967296))
                            (main_init fm0)) in
    block st = 0 /\
    forwarded (snd (main_iter ifrate outputbuf inp st)) = [].
Proof.
  intros x iq fm0 inp st.
  assert (Hinp : runs inp = true) by reflexivity.
  assert (Hb : block st = 0).
  { unfold st.
    rewrite (main_loop_block ifrate outputbuf).
    - rewrite repeat_length, Z2Nat.id by lia. reflexivity.
    - apply Forall_runs_repeat. exact Hinp.
    - split; reflexivity. }
  split; [exact Hb|].
  rewrite (main_iter_forwarded ifrate outputbuf inp st Hinp), Hb.
  reflexivity.
Qed.

(** *** The level meter *)

Lemma main_loop_level : forall inputs st,
    Forall (fun inp => runs inp = true) inputs ->
    audio_level (loop_state (main_loop ifrate outputbuf inputs st))
    = level_after (audio_level st)
        (map (fun a => snd (samples_mean_rms a))
             (decode_all (fm st) (map (@in_iq IQSample) inputs))).
Proof.
  induction inputs as [|inp inputs IH]; intros st Hr; [reflexivity|].
  inversion Hr as [|? ? Hinp Hrest]; subst.
  destruct (main_loop_runs ifrate outputbuf inp inputs st Hinp) as [_ Hst].
  rewrite Hst, (IH _ Hrest).
  rewrite (main_iter_state ifrate outputbuf inp st Hinp).
  cbn [map fm audio_level]. rewrite decode_all_cons. reflexivity.
Qed.

(** *** The stereo lock *)

Lemma main_loop_stereo_lines : forall inputs st,
    Forall (fun inp => runs inp = true) inputs ->
    map (filter is_stereo_log) (loop_events (main_loop ifrate outputbuf inputs st))
    = edge_lines (got_stereo st)
                 (fm_states (fm st) (map (@in_iq IQSample) inputs)).
Proof.
  induction inputs as [|inp inputs IH]; intros st Hr; [reflexivity|].
  inversion Hr as [|? ? Hinp Hrest]; subst.
  destruct (main_loop_runs ifrate outputbuf inp inputs st Hinp) as [Hev _].
  rewrite Hev. cbn [map fm_states edge_lines].
  rewrite (main_iter_stereo_log ifrate outputbuf inp st Hinp).
  rewrite (IH _ Hrest).
  rewrite (main_iter_state ifrate outputbuf inp st Hinp).
  reflexivity.
Qed.

Lemma edge_lines_count : forall (fms : list FmDecoder) prev,
    List.length (concat (edge_lines prev fms))
    = (rises_from prev (map stereo_detected fms)
       + falls_from prev (map stereo_detected fms))%nat.
Proof.
  induction fms as [|f fms IH]; intro prev; [reflexivity|].
  cbn [edge_lines concat map rises_from falls_from].
  rewrite length_app, IH.
  destruct (stereo_detected f), prev; cbn; lia.
Qed.

(** C6, as the program has it. Over the turns of the main loop, the
    stereo lines printed in each turn are: one line when the stereo lock
    that the decoder reports differs from the one seen in the turn before
    (from [false] at the start), "got stereo" when it is now true and
    "lost stereo" when it is now false, and no line otherwise.  Their
    number is the number of changes of the lock; the locks true, false,
    true give three lines, since the first one is a change from the
    initial [false]. *)
Theorem stereo_edge_lines : forall inputs fm0,
    Forall (fun inp => runs inp = true) inputs ->
    let lines := map (filter is_stereo_log)
                     (loop_events (main_loop ifrate outputbuf inputs
                                             (main_init fm0))) in
    let fms := fm_states fm0 (map (@in_iq IQSample) inputs) in
    lines = edge_lines false fms /\
    List.length (concat lines)
    = (rises_from false (map stereo_detected fms)
       + falls_from false (map stereo_detected fms))%nat /\
    (map stereo_detected fms = [true; false; true] ->
     exists p1 p3, concat lines = [LogGotStereo p1; LogLostStereo;
                                   LogGotStereo p3]).
Proof.
  intros inputs fm0 Hr lines fms.
  assert (Hl : lines = edge_lines false fms).
  { apply (main_loop_stereo_lines inputs (main_init fm0) Hr). }
  split; [exact Hl|]. split.
  - rewrite Hl. apply edge_lines_count.
  - intro Hseq. rewrite Hl.
    destruct fms as [|f1 [|f2 [|f3 [|f4 fms]]]]; try discriminate.
    cbn [map] in Hseq.
    assert (H1 : stereo_detected f1 = true) by congruence.
    assert (H2 : stereo_detected f2 = false) by congruence.
    assert (H3 : stereo_detected f3 = true) by congruence.
    exists (get_pilot_level f1), (get_pilot_level f3).
    cbn [edge_lines concat]. rewrite H1, H2, H3. reflexivity.
Qed.

End MainLoopClaims.

Section BacklogWarning.

Context {D : Type} {ops : DoubleOps D}.
Context {IQSample : Type} {dec : Decoder D IQSample}.
Variables (ifrate : D) (outputbuf : Z).
Implicit Types (st : MainState D) (inp : IterInput IQSample)
               (inputs : list (IterInput IQSample)).

Lemma quiet_concat : forall evss : list (list (Event D)),
    Forall quiet evss -> filter is_backlog_warning (concat evss) = [].
Proof.
  induction evss as [|evs evss IH]; intro H; [reflexivity|].
  inversion H as [|? ? Hq Hrest]; subst. cbn [concat].
  rewrite filter_app, Hq, (IH Hrest). reflexivity.
Qed.

Lemma runs_not_stopped : forall inp, runs inp = true -> in_stop inp = false.
Proof.
  intros inp H. unfold runs in H. destruct (in_stop inp);
    [discriminate | reflexivity].
Qed.

(** Once the flag is set, no turn prints the warning. *)
Lemma no_more_warnings : forall inputs st,
    inbuf_length_warning st = true ->
    Forall quiet (loop_events (main_loop ifrate outputbuf inputs st)).
Proof.
  induction inputs as [|inp inputs IH]; intros st Hw; [constructor|].
  destruct (runs inp) eqn:Hr.
  - destruct (main_loop_runs ifrate outputbuf inp inputs st Hr) as [Hev _].
    rewrite Hev.
    destruct (main_iter_warning ifrate outputbuf inp st
                (runs_not_stopped inp Hr)) as [Hf Hflag].
    rewrite Hw in Hf, Hflag. constructor; [exact Hf|].
    apply IH. exact Hflag.
  - destruct (main_loop_leaves ifrate outputbuf inp inputs st Hr) as [Hev _].
    rewrite Hev. constructor; [|constructor].
    destruct (in_stop inp) eqn:Hs.
    + rewrite (main_iter_stop ifrate outputbuf inp st Hs). reflexivity.
    + destruct (main_iter_warning ifrate outputbuf inp st Hs) as [Hf _].
      rewrite Hw in Hf. exact Hf.
Qed.

(** The warning is printed at most once from any state, and not at all
    from a state in which the flag is set. *)
Lemma warning_count : forall inputs st,
    (List.length
       (filter is_backlog_warning
          (concat (loop_events (main_loop ifrate outputbuf inputs st))))
     <= if inbuf_length_warning st then 0 else 1)%nat.
Proof.
  induction inputs as [|inp inputs IH]; intro st.
  - cbn. destruct (inbuf_length_warning st); lia.
  - destruct (in_stop inp) eqn:Hs.
    + assert (Hr : runs inp = false) by (unfold runs; rewrite Hs; reflexivity).
      destruct (main_loop_leaves ifrate outputbuf inp inputs st Hr) as [Hev _].
      rewrite Hev, (main_iter_stop ifrate outputbuf inp st Hs).
      cbn. destruct (inbuf_length_warning st); lia.
    + destruct (main_iter_warning ifrate outputbuf inp st Hs) as [Hf Hflag].
      destruct (runs inp) eqn:Hr.
      * destruct (main_loop_runs ifrate outputbuf inp inputs st Hr)
          as [Hev _].
        rewrite Hev. cbn [concat]. rewrite filter_app, length_app, Hf.
        specialize (IH (snd (fst (main_iter ifrate outputbuf inp st)))).
        rewrite Hflag in IH.
        destruct (inbuf_length_warning st),
          (backlog_check ifrate (in_queued inp)); cbn in *; lia.
      * destruct (main_loop_leaves ifrate outputbuf inp inputs st Hr)
          as [Hev _].
        rewrite Hev. cbn [concat]. rewrite app_nil_r, Hf.
        destruct (inbuf_length_warning st),
          (backlog_check ifrate (in_queued inp)); cbn; lia.
Qed.

(** Turns that run split the loop in two. *)
Lemma main_loop_app : forall pre rest st,
    Forall (fun inp => runs inp = true) pre ->
    loop_events (main_loop ifrate outputbuf (pre ++ rest) st)
    = loop_events (main_loop ifrate outputbuf pre st)
      ++ loop_events
           (main_loop ifrate outputbuf rest
              (loop_state (main_loop ifrate outputbuf pre st))) /\
    List.length (loop_events (main_loop ifrate outputbuf pre st))
    = List.length pre.
Proof.
  induction pre as [|inp pre IH]; intros rest st Hr; [split; reflexivity|].
  inversion Hr as [|? ? Hinp Hrest]; subst.
  destruct (main_loop_runs ifrate outputbuf inp pre st Hinp) as [Hev Hst].
  destruct (main_loop_runs ifrate outputbuf inp (pre ++ rest) st Hinp)
    as [Hev' _].
  rewrite <- app_comm_cons, Hev', Hev, Hst.
  destruct (IH rest (snd (fst (main_iter ifrate outputbuf inp st))) Hrest)
    as [Happ Hlen].
  rewrite Happ. cbn [List.length]. rewrite Hlen. split; reflexivity.
Qed.

(** Turns whose check of the queue length fails print no warning and
    leave the flag as it is. *)
Lemma quiet_prefix : forall pre st,
    Forall (fun inp => runs inp = true) pre ->
    Forall (fun inp => exceeds ifrate inp = false) pre ->
    Forall quiet (loop_events (main_loop ifrate outputbuf pre st)) /\
    inbuf_length_warning (loop_state (main_loop ifrate outputbuf pre st))
    = inbuf_length_warning st.
Proof.
  induction pre as [|inp pre IH]; intros st Hr Hx;
    [split; [constructor|reflexivity]|].
  inversion Hr as [|? ? Hinp Hrest]; subst.
  inversion Hx as [|? ? Hxi Hxrest]; subst.
  pose proof (runs_not_stopped inp Hinp) as Hs.
  assert (Hc : backlog_check ifrate (in_queued inp) = false).
  { unfold exceeds in Hxi. rewrite Hs in Hxi. exact Hxi. }
  destruct (main_loop_runs ifrate outputbuf inp pre st Hinp) as [Hev Hst].
  destruct (main_iter_warning ifrate outputbuf inp st Hs) as [Hf Hflag].
  rewrite Hc, Bool.andb_false_r in Hf. rewrite Hc, Bool.orb_false_r in Hflag.
  destruct (IH (snd (fst (main_iter ifrate outputbuf inp st))) Hrest Hxrest)
    as [Hq Hw].
  rewrite Hev, Hst. split.
  - constructor; [exact Hf | exact Hq].
  - rewrite Hw. exact Hflag.
Qed.

(** C8. Over any run of the main loop the warning for a growing input
    buffer is printed at most once; and it is printed in the first turn
    whose check of the input queue length succeeds: no turn before it
    prints the warning, that turn prints it once, and no turn after it
    prints it, whatever the queue lengths seen later. *)
Theorem backlog_warning_once : forall inputs fm0,
    (List.length
       (filter is_backlog_warning
          (concat (loop_events (main_loop ifrate outputbuf inputs
                                          (main_init fm0)))))
     <= 1)%nat /\
    (forall pre inp post,
        inputs = pre ++ inp :: post ->
        Forall (fun i => runs i = true) pre ->
        Forall (fun i => exceeds ifrate i = false) pre ->
        exceeds ifrate inp = true ->
        exists evs_pre ev evs_post,
          loop_events (main_loop ifrate outputbuf inputs (main_init fm0))
          = evs_pre ++ ev :: evs_post /\
          List.length evs_pre = List.length pre /\
          Forall quiet evs_pre /\
          filter is_backlog_warning ev = [LogBacklogWarning] /\
          Forall quiet evs_post).
Proof.
  intros inputs fm0. split.
  - apply (warning_count inputs (main_init fm0)).
  - intros pre inp post Hin Hr Hx Hexc. subst inputs.
    destruct (main_loop_app pre (inp :: post) (main_init fm0) Hr)
      as [Happ Hlen].
    destruct (quiet_prefix pre (main_init fm0) Hr Hx) as [Hq Hw].
    set (st := loop_state (main_loop ifrate outputbuf pre (main_init fm0)))
      in *.
    cbn [main_init inbuf_length_warning] in Hw.
    unfold exceeds in Hexc. apply Bool.andb_true_iff in Hexc.
    destruct Hexc as [Hs Hc]. apply Bool.negb_true_iff in Hs.
    destruct (main_iter_warning ifrate outputbuf inp st Hs) as [Hf Hflag].
    rewrite Hw, Hc in Hf, Hflag. cbn in Hf, Hflag.
    exists (loop_events (main_loop ifrate outputbuf pre (main_init fm0))),
           (snd (main_iter ifrate outputbuf inp st)).
    destruct (runs inp) eqn:Hri.
    + destruct (main_loop_runs ifrate outputbuf inp post st Hri) as [Hev _].
      exists (loop_events
                (main_loop ifrate outputbuf post
                   (snd (fst (main_iter ifrate outputbuf inp st))))).
      rewrite Happ, Hev. repeat split; try assumption.
      apply no_more_warnings. exact Hflag.
    + destruct (main_loop_leaves ifrate outputbuf inp post st Hri) as [Hev _].
      exists []. rewrite Happ, Hev. repeat split; try assumption.
      constructor.
Qed.

End BacklogWarning.

(** * The level meter in exact arithmetic *)

Section ExactLevel.

Local Open Scope Q_scope.

Lemma Qpower_succ_nat : forall (q : Q) (n : nat),
    ~ q == 0 -> q ^ Z.of_nat (S n) == q * q ^ Z.of_nat n.
Proof.
  intros q n Hq. rewrite Nat2Z.inj_succ. unfold Z.succ.
  rewrite Qpower_plus by exact Hq. change (q ^ 1) with q. ring.
Qed.

Lemma level_after_exact : forall (rmss : list Q) (l r : Q),
    Forall (fun x => x == r) rmss ->
    level_after (ops := exact) l rmss
    == r * (1 - (95 # 100) ^ Z.of_nat (List.length rmss))
       + (95 # 100) ^ Z.of_nat (List.length rmss) * l.
Proof.
  induction rmss as [|x rmss IH]; intros l r Hr.
  - cbn. ring.
  - inversion Hr as [|? ? Hx Hrest]; subst.
    change (level_after (ops := exact) l (x :: rmss))
      with (level_after (ops := exact) ((95 # 100) * l + (5 # 100) * x) rmss).
    rewrite (IH _ r Hrest).
    change (List.length (x :: rmss)) with (S (List.length rmss)).
    rewrite Qpower_succ_nat by discriminate.
    rewrite Hx. set (p := (95 # 100) ^ Z.of_nat (List.length rmss)). ring.
Qed.

Lemma geometric_sum_closed : forall (q : Q) (n : nat),
    ~ q == 0 -> (1 - q) * geometric_sum q n == 1 - q ^ Z.of_nat n.
Proof.
  intros q n Hq. induction n as [|n IH].
  - cbn. ring.
  - rewrite Qpower_succ_nat by exact Hq. cbn [geometric_sum].
    setoid_replace ((1 - q) * (1 + q * geometric_sum q n))
      with ((1 - q) + q * ((1 - q) * geometric_sum q n)) by ring.
    rewrite IH. ring.
Qed.

End ExactLevel.

Lemma decode_all_Forall :
  forall (D IQSample : Type) (dec : Decoder D IQSample) (P : list D -> Prop),
    (forall f iq, P (snd (process f iq))) ->
    forall (iqs : list (list IQSample)) (f0 : FmDecoder),
      Forall P (decode_all f0 iqs).
Proof.
  intros D IQSample dec P HP. induction iqs as [|iq iqs IH]; intro f0.
  - constructor.
  - rewrite decode_all_cons. constructor; [apply HP | apply IH].
Qed.

Lemma decode_all_length :
  forall (D IQSample : Type) (dec : Decoder D IQSample)
         (iqs : list (list IQSample)) (f0 : FmDecoder),
    List.length (decode_all f0 iqs) = List.length iqs.
Proof.
  intros D IQSample dec. induction iqs as [|iq iqs IH]; intro f0.
  - reflexivity.
  - rewrite decode_all_cons. cbn [List.length]. rewrite IH. reflexivity.
Qed.

(** C5, as the program has it. In every turn of the main loop the level is
    set to [0.95 * level + 0.05 * rms] in the arithmetic of [double], where
    [rms] is measured on the block as [process] returned it, and the block
    handed on is that block after [adjust_gain]; the level starts at 0.  In
    exact arithmetic, and with the same RMS [r] in each of [N] turns, this
    recurrence gives [0.05 * r * (1 + 0.95 + ... + 0.95 ^ (N - 1))], which is
    [r * (1 - 0.95 ^ N)]. *)
Theorem level_tracker_recurrence :
  (forall (D : Type) (ops : DoubleOps D) (IQSample : Type)
          (dec : Decoder D IQSample) (ifrate : D) (outputbuf : Z),
      (forall (inp : IterInput IQSample) (st : MainState D),
          runs inp = true ->
          let audio := snd (process (fm st) (in_iq inp)) in
          audio_level (snd (fst (main_iter ifrate outputbuf inp st)))
          = d_add (d_mul d_0_95 (audio_level st))
                  (d_mul d_0_05 (snd (samples_mean_rms audio))) /\
          forwarded (snd (main_iter ifrate outputbuf inp st))
          = if 0 <? block st then [adjust_gain audio d_0_5] else []) /\
      (forall (inputs : list (IterInput IQSample)) (fm0 : FmDecoder),
          Forall (fun inp => runs inp = true) inputs ->
          audio_level (loop_state (main_loop ifrate outputbuf inputs
                                             (main_init fm0)))
          = level_after (d_of_int 0)
              (map (fun a => snd (samples_mean_rms a))
                   (decode_all fm0 (map (@in_iq IQSample) inputs))))) /\
  (forall (IQSample : Type) (dec : Decoder Q IQSample) (ifrate : Q)
          (outputbuf : Z) (inputs : list (IterInput IQSample))
          (fm0 : FmDecoder) (r : Q),
      Forall (fun inp => runs inp = true) inputs ->
      (forall f iq, snd (samples_mean_rms (snd (process f iq))) == r) ->
      let level :=
        audio_level (loop_state (main_loop (ops := exact) ifrate outputbuf
                                           inputs (main_init fm0))) in
      level == level_closed_form r (List.length inputs) /\
      level == (5 # 100) * r * geometric_sum (95 # 100) (List.length inputs)).
Proof.
  split.
  - intros D ops IQSample dec ifrate outputbuf. split.
    + intros inp st Hr audio. split.
      * rewrite (main_iter_state ifrate outputbuf inp st Hr). reflexivity.
      * apply (main_iter_forwarded ifrate outputbuf inp st Hr).
    + intros inputs fm0 Hr.
      apply (main_loop_level ifrate outputbuf inputs (main_init fm0) Hr).
  - intros IQSample dec ifrate outputbuf inputs fm0 r Hr Hrms level.
    assert (Hl : level == level_closed_form r (List.length inputs)).
    { unfold level.
      rewrite (main_loop_level ifrate outputbuf inputs (main_init fm0) Hr).
      rewrite (level_after_exact _ (audio_level (main_init fm0)) r).
      - rewrite length_map, decode_all_length, length_map.
        unfold level_closed_form. cbn [main_init audio_level].
        change (d_of_int 0) with 0%Q. ring.
      - apply Forall_map. apply decode_all_Forall. exact Hrms. }
    split; [exact Hl|]. rewrite Hl. unfold level_closed_form.
    rewrite <- (geometric_sum_closed (95 # 100) (List.length inputs))
      by discriminate.
    ring.
Qed.

(** Scenario C of the specification in exact arithmetic: a decoder whose
    blocks all have RMS 2, three turns. *)
Lemma level_tracker_three_turns :
  let level :=
    audio_level
      (loop_state
         (main_loop (ops := exact)
                    (1000000 # 1) 0
                    (repeat (running_input [tt]) 3)
                    (main_init (scripted_start [2 # 1] (2 # 1) [])))) in
  level == level_closed_form (2 # 1) 3 /\
  level == (5 # 100) * (2 # 1) * geometric_sum (95 # 100) 3.
Proof.
  apply (proj2 level_tracker_recurrence unit
               (scripted_decoder (ops := exact) [2 # 1] (2 # 1))
               (1000000 # 1) 0 (repeat (running_input [tt]) 3)
               (scripted_start [2 # 1] (2 # 1) []) (2 # 1)).
  - repeat constructor.
  - intros f iq. reflexivity.
Defined.

(** C5, as the specification has it, fails: the program computes in
    binary64.  One turn with RMS 1 leaves the level at the binary64 number
    nearest to 0.05, which is [7205759403792794 / 2 ^ 57]; the closed form
    [1 * (1 - 0.95 ^ 1)] is [1 / 20], which no binary64 number equals; and
    the closed form evaluated in binary64 gives yet another number. *)
Lemma level_tracker_binary64_inexact :
  let st :=
    loop_state
      (main_loop (ops := binary64)
                 1000000%float 0 [running_input [tt]]
                 (main_init (scripted_start [1%float] 1%float []))) in
  audio_level st = 0x1.999999999999ap-5%float /\
  float_to_Q (audio_level st)
  = Some (7205759403792794 # 144115188075855872) /\
  Qeq_bool (7205759403792794 # 144115188075855872) (level_closed_form 1 1)
  = false /\
  PrimFloat.eqb (audio_level st)
                (PrimFloat.mul 1 (PrimFloat.sub 1 d_0_95)) = false.
Proof. vm_compute. repeat split; reflexivity. Qed.

(** Scenario D of the specification on the scripted decoder: the stereo lock
    is true, false, true in three turns. *)
Lemma stereo_scenario_D :
  let inputs := repeat (running_input [tt]) 3 in
  let fm0 := scripted_start (ops := binary64) [1%float] 1%float
                            [true; false; true] in
  Forall (fun inp => runs inp = true) inputs /\
  exists p1 p3,
    concat (map (filter is_stereo_log)
                (loop_events (main_loop 1000000%float 0 inputs
                                        (main_init fm0))))
    = [LogGotStereo p1; LogLostStereo; LogGotStereo p3].
Proof.
  cbv zeta. split; [repeat constructor|].
  apply (stereo_edge_lines 1000000%float 0
           (repeat (running_input [tt]) 3)
           (scripted_start (ops := binary64) [1%float] 1%float
                           [true; false; true])).
  - repeat constructor.
  - reflexivity.
Defined.

(** C6, as the specification has it, fails in its example: the locks true,
    false, true give three lines and not two. *)
Lemma stereo_scenario_D_three_lines :
  let lines :=
    concat (map (filter is_stereo_log)
                (loop_events
                   (main_loop 1000000%float 0
                      (repeat (running_input [tt]) 3)
                      (main_init (scripted_start (ops := binary64)
                                    [1%float] 1%float
                                    [true; false; true]))))) in
  lines = [LogGotStereo 0%float; LogLostStereo; LogGotStereo 0%float] /\
  Nat.eqb (List.length lines) 2 = false.
Proof. vm_compute. split; reflexivity. Qed.

(** Three turns with 5, 20000000 and 30000000 samples queued at an IF rate
    of 1000000 per second: the second turn prints the warning, the third
    does not. *)
Lemma backlog_warning_run :
  let fm0 := scripted_start (ops := binary64) [1%float] 1%float [] in
  let inp q := {| in_stop := false; in_queued := q; in_iq := [tt] |} in
  exists evs_pre ev evs_post,
    loop_events (main_loop 1000000%float 0
                   ([inp 5] ++ inp 20000000 :: [inp 30000000])
                   (main_init fm0))
    = evs_pre ++ ev :: evs_post /\
    List.length evs_pre = List.length [inp 5] /\
    Forall quiet evs_pre /\
    filter is_backlog_warning ev = [LogBacklogWarning] /\
    Forall quiet evs_post.
Proof.
  cbv zeta.
  apply (proj2 (backlog_warning_once 1000000%float 0 _
                  (scripted_start (ops := binary64) [1%float] 1%float []))
               [{| in_stop := false; in_queued := 5; in_iq := [tt] |}]
               {| in_stop := false; in_queued := 20000000; in_iq := [tt] |}
               [{| in_stop := false; in_queued := 30000000; in_iq := [tt] |}]).
  - reflexivity.
  - repeat constructor.
  - repeat constructor.
  - reflexivity.
Defined.

(** * The default output buffer *)

(** The binary64 instance on some values: the literals are the binary64
    numbers nearest to 0.95 and 0.05 (a correctly rounded division of two
    exact numbers), integers convert with rounding to nearest, and the
    conversion to [unsigned int] truncates. *)
Example binary64_values :
  PrimFloat.div (float_of_Z 95) (float_of_Z 100) = d_0_95 /\
  PrimFloat.div (float_of_Z 5) (float_of_Z 100) = d_0_05 /\
  float_of_Z 48000 = 48000%float /\
  float_of_Z 18446744073709551615 = 18446744073709551616%float /\
  float_to_uint (PrimFloat.mul 1.5 (float_of_Z 48000)) = Some 72000 /\
  float_to_uint (PrimFloat.div 1 3) = Some 0 /\
  float_to_uint 4294967296%float = None.
Proof. vm_compute. repeat split; reflexivity. Qed.


(** A turn hands its block to the output buffer when [outputbuf_samples] is
    above 0 and to [audio_output] otherwise. *)
Lemma main_iter_output_path :
  forall (D : Type) (ops : DoubleOps D) (IQSample : Type)
         (dec : Decoder D IQSample) (ifrate : D) (outputbuf : Z)
         (inp : IterInput IQSample) (st : MainState D),
    Forall (fun e => (if 0 <? outputbuf then is_direct_write e
                      else is_buffered_push e) = false)
           (snd (main_iter ifrate outputbuf inp st)).
Proof.
  intros D ops IQSample dec ifrate outputbuf inp st.
  destruct (runs inp) eqn:Hr.
  - rewrite (main_iter_runs ifrate outputbuf inp st Hr). cbv zeta. cbn [snd].
    case_ifs; repeat constructor.
  - destruct (runs_cases inp Hr) as [Hs|[Hs Hq]].
    + rewrite (main_iter_stop ifrate outputbuf inp st Hs). constructor.
    + rewrite (main_iter_end ifrate outputbuf inp st Hs Hq). cbn [snd].
      case_ifs; repeat constructor.
Qed.




(** * The first block and the later blocks *)

(** Three turns of the scripted decoder, whose blocks are [[1]]: the first
    block is thrown away, the two later ones are handed on with the gain
    0.5 applied. *)
Lemma forwarded_three_turns :
  let inputs := repeat (running_input [tt]) 3 in
  let fm0 := scripted_start (ops := binary64) [1%float] 1%float [] in
  Forall (fun inp => runs inp = true) inputs /\
  concat (map forwarded
              (loop_events (main_loop 1000000%float 48000 inputs
                                      (main_init fm0))))
  = tl (map (fun a => adjust_gain a d_0_5)
            (decode_all fm0 (map (@in_iq unit) inputs))) /\
  tl (map (fun a => adjust_gain a d_0_5)
          (decode_all fm0 (map (@in_iq unit) inputs)))
  = [[0.5%float]; [0.5%float]].
Proof.
  cbv zeta. split; [repeat constructor|]. split; [|reflexivity].
  apply (forwarded_all_but_first 1000000%float 48000
           (repeat (running_input [tt]) 3)
           (scripted_start (ops := binary64) [1%float] 1%float [])).
  - repeat constructor.
  - cbn. unfold uint_modulus. lia.
Defined.

(** Scenario E on the scripted decoder. *)
Lemma one_block_scenario_E :
  concat (map forwarded
              (loop_events
                 (main_loop 1000000%float 48000
                    [running_input [tt]; end_input]
                    (main_init (scripted_start (ops := binary64)
                                  [1%float] 1%float []))))) = [].
Proof.
  apply (one_block_none_forwarded 1000000%float 48000 [tt]
           (scripted_start (ops := binary64) [1%float] 1%float [])).
  discriminate.
Defined.

(** * More on [DataBuffer] *)

Section DataBufferMore.

Variable Element : Type.
Implicit Types (s : DataBuffer Element) (v : list Element).

Lemma nonempty_blocks_cons : forall v (vs : list (list Element)),
    nonempty_blocks (v :: vs)
    = (if empty v then [] else [v]) ++ nonempty_blocks vs.
Proof. intros v vs. unfold nonempty_blocks. cbn. destruct (empty v); reflexivity. Qed.

Lemma nonempty_blocks_id : forall vs : list (list Element),
    Forall (fun v => v <> []) vs -> nonempty_blocks vs = vs.
Proof.
  induction vs as [|v vs IH]; intro H; [reflexivity|].
  inversion H as [|? ? Hv Hrest]; subst. rewrite nonempty_blocks_cons, (IH Hrest).
  destruct v; [congruence|reflexivity].
Qed.

(** Nothing is lost, doubled or reordered from any buffer that satisfies
    the invariant. *)
Lemma conservation_from : forall (ops : list (Op Element)) s,
    buffer_inv s ->
    nonempty_blocks (pulled_blocks s ops) ++ m_queue (run_ops s ops)
    = m_queue s ++ pushed_blocks ops.
Proof.
  induction ops as [|op ops IH]; intros s Hinv.
  - cbn. rewrite app_nil_r. reflexivity.
  - pose proof (IH (exec_op s op) (buffer_inv_exec_op op Hinv)) as Hrec.
    cbn [run_ops fold_left] in *. fold (run_ops (exec_op s op) ops) in *.
    destruct op as [v| | | | |n]; cbn [pulled_blocks pushed_blocks flat_map].
    + destruct (pull s) as [[w s']|]; rewrite Hrec; cbn [exec_op];
        unfold push; destruct v; cbn; rewrite <- ?app_assoc, ?app_nil_r;
        reflexivity.
    + destruct (pull s) as [[w s']|]; rewrite Hrec; reflexivity.
    + destruct (pull s) as [[w s']|]; rewrite Hrec; reflexivity.
    + cbn [exec_op] in *. destruct (pull s) as [[w s']|] eqn:Hp.
      * destruct (pull_inv Hinv Hp) as [_ [_ Hq]].
        rewrite nonempty_blocks_cons, <- app_assoc, Hrec, Hq, <- app_assoc.
        reflexivity.
      * rewrite Hrec. reflexivity.
    + destruct (pull s) as [[w s']|]; rewrite Hrec; reflexivity.
    + destruct (pull s) as [[w s']|]; rewrite Hrec; reflexivity.
Qed.

(** X3. Whatever the order of the calls on a new buffer, and whichever
    threads make them: the non-empty vectors returned by the calls of [pull]
    so far, followed by the blocks still queued, are the non-empty vectors
    pushed so far, in the order of the pushes. *)
Theorem fifo_conservation : forall ops : list (Op Element),
    nonempty_blocks (pulled_blocks DataBuffer_new ops)
    ++ m_queue (run_ops DataBuffer_new ops)
    = pushed_blocks ops.
Proof.
  intro ops.
  apply (conservation_from ops DataBuffer_new (buffer_inv_new Element)).
Qed.

(** X4. On a buffer that calls have led to from a new one, [pull] waits
    only when the queue is empty and the end is not marked; it returns the
    empty vector only when the queue is empty and the end is marked, and
    then leaves the buffer as it is; and any other vector it returns is the
    front of the queue, which it removes. *)
Theorem pull_cases : forall ops : list (Op Element),
    let s := run_ops DataBuffer_new ops in
    match pull s with
    | None => m_queue s = [] /\ m_end_marked s = false
    | Some (v, s') =>
        if empty v
        then m_queue s = [] /\ m_end_marked s = true /\ s' = s
        else m_queue s = v :: m_queue s' /\
             m_end_marked s' = m_end_marked s
    end.
Proof.
  intros ops s.
  assert (Hinv : buffer_inv s) by apply buffer_inv_run_ops, buffer_inv_new.
  destruct Hinv as [_ Hne]. unfold pull.
  destruct (m_queue s) as [|front rest] eqn:Hq; cbn.
  - destruct (m_end_marked s) eqn:He; cbn; rewrite ?Hq; repeat split; assumption.
  - inversion Hne as [|? ? Hv _]; subst.
    destruct front; [congruence|]. cbn. split; reflexivity.
Qed.

(** X5. The end of the stream is not final for the class itself: a
    non-empty vector pushed after [pull_end_reached] has become true is
    queued all the same, [pull_end_reached] is false again, the next [pull]
    returns that vector, and after it [pull_end_reached] is true once
    more. *)
Theorem push_after_end : forall (ops : list (Op Element)) v,
    let s := run_ops DataBuffer_new ops in
    v <> [] -> vsize v < size_t_modulus ->
    fits_size_t s -> pull_end_reached s = true ->
    pull_end_reached (push s v) = false /\
    exists s', pull (push s v) = Some (v, s') /\ pull_end_reached s' = true.
Proof.
  intros ops v s Hv Hsize Hfit Hend.
  assert (Hinv : buffer_inv s) by apply buffer_inv_run_ops, buffer_inv_new.
  unfold pull_end_reached in Hend. apply Bool.andb_true_iff in Hend.
  destruct Hend as [Hz He]. apply Z.eqb_eq in Hz.
  pose proof (qlen_zero_empty Hinv Hfit Hz) as Hq.
  pose proof (vsize_pos Hv) as Hpos.
  assert (Hw : wrap_size_t (vsize v) = vsize v).
  { apply wrap_size_t_small. lia. }
  destruct v as [|x v]; [congruence|].
  unfold push, pull, pull_end_reached. cbn [empty negb m_qlen m_end_marked m_queue].
  rewrite Hz, Hq, He. cbn [app empty andb Z.add].
  rewrite Hw. split.
  - apply Bool.andb_false_iff. left. apply Z.eqb_neq. lia.
  - eexists. split; [reflexivity|]. cbn [m_qlen m_end_marked].
    rewrite Z.sub_diag. reflexivity.
Qed.

End DataBufferMore.

(** Pushes and pulls interleaved, with a pull that waits and a pull at the
    end of the stream. *)
Lemma pull_cases_run :
  let ops := [OpPull; OpPush [1; 2]; OpPush []; OpPull; OpPushEnd; OpPull] in
  pulled_blocks DataBuffer_new ops = [[1; 2]; []] /\
  pushed_blocks ops = [[1; 2]] /\
  pull (run_ops DataBuffer_new ops)
  = Some ([], run_ops DataBuffer_new ops).
Proof.
  cbv zeta. split; [reflexivity|]. split; [reflexivity|].
  pose proof (@pull_cases Z [OpPull; OpPush [1; 2]; OpPush []; OpPull;
                             OpPushEnd; OpPull]) as H.
  cbv zeta in H.
  destruct (pull (run_ops DataBuffer_new
                    [OpPull; OpPush [1; 2]; OpPush []; OpPull; OpPushEnd;
                     OpPull])) as [[v s']|] eqn:Hp.
  - destruct v; [|discriminate Hp].
    destruct H as [_ [_ Hs]]. rewrite Hs. reflexivity.
  - discriminate Hp.
Defined.

(** A late push on a closed and drained buffer. *)
Lemma push_after_end_run :
  let s := run_ops DataBuffer_new [OpPush [1]; OpPushEnd; OpPull] in
  pull_end_reached s = true /\
  pull_end_reached (push s [7; 8]) = false /\
  exists s', pull (push s [7; 8]) = Some ([7; 8], s') /\
             pull_end_reached s' = true.
Proof.
  cbv zeta. split; [reflexivity|].
  apply (@push_after_end Z [OpPush [1]; OpPushEnd; OpPull] [7; 8]).
  - discriminate.
  - reflexivity.
  - reflexivity.
  - reflexivity.
Defined.

(** * More on the output thread *)

Section OutputThreadMore.

Variable Sample : Type.
Implicit Types (buf : DataBuffer Sample).

(** A turn that writes a block has pulled it. *)
Lemma write_output_iter_wrote : forall stop buf minfill v buf',
    write_output_iter stop buf minfill = Wrote v buf' ->
    pull buf = Some (v, buf') /\ pull_end_reached buf = false.
Proof.
  intros stop buf minfill v buf' H. unfold write_output_iter in H.
  destruct stop; [discriminate|].
  destruct (if queued_samples buf =? 0
            then wait_buffer_fill buf minfill else Some tt);
    [|discriminate].
  destruct (pull_end_reached buf); [discriminate|].
  destruct (pull buf) as [[w b]|]; [|discriminate].
  inversion H; subst. split; reflexivity.
Qed.

(** X6. Whatever the stop flag does and however long the thread runs, the
    output thread writes the queued blocks from the front, in order and each
    once: what it has written is a front part of the queue it found, what it
    has not written is still queued, and it never marks the end. *)
Theorem output_thread_writes_front :
  forall fuel stop_flag k buf (minfill : Z) written,
    buffer_inv buf ->
    exists out,
      snd (write_output_data fuel stop_flag k buf minfill written)
      = written ++ out /\
      m_queue buf
      = out ++ m_queue (snd (fst (write_output_data fuel stop_flag k buf
                                                    minfill written))) /\
      m_end_marked (snd (fst (write_output_data fuel stop_flag k buf
                                                minfill written)))
      = m_end_marked buf.
Proof.
  induction fuel as [|fuel IH]; intros stop_flag k buf minfill written Hinv.
  - exists []. cbn. rewrite app_nil_r. repeat split.
  - cbn [write_output_data].
    destruct (write_output_iter (stop_flag k) buf minfill) as [| | | |v buf']
      eqn:Hit;
      try solve [exists []; cbn; rewrite app_nil_r; repeat split].
    destruct (write_output_iter_wrote _ _ _ _ _ Hit) as [Hp Hend].
    destruct (pull_inv Hinv Hp) as [Hinv' [He Hq]].
    assert (Hv : empty v = false).
    { destruct v as [|x v]; [|reflexivity]. exfalso.
      cbn in Hq. unfold pull in Hp.
      destruct (m_queue buf) as [|front rest] eqn:Hqb.
      - destruct Hinv as [Hlen _]. rewrite Hqb in Hlen. cbn in Hlen.
        destruct (m_end_marked buf) eqn:Hm; cbn in Hp; [|discriminate].
        unfold pull_end_reached in Hend. rewrite Hlen, Hm in Hend.
        discriminate.
      - cbn in Hp. inversion Hp; subst. destruct Hinv as [_ Hne].
        rewrite Hqb in Hne. inversion Hne; congruence. }
    rewrite Hv in Hq.
    destruct (IH stop_flag (S k) buf' minfill (written ++ [v]) Hinv')
      as [out [Hw [Hqueue Hmark]]].
    exists (v :: out). rewrite Hw, Hq, Hmark, He, <- app_assoc.
    split; [reflexivity|]. split; [|reflexivity].
    cbn. f_equal. exact Hqueue.
Qed.

(** X7. With the stop flag not set, the output thread does not return
    while the end of the buffer is not marked: it writes what is queued,
    without waiting for the minimum fill as long as a block is queued, and
    then waits for the producer. *)
Theorem output_thread_waits_when_open :
  forall buf stop_flag k (minfill : Z) written,
    buffer_inv buf -> fits_size_t buf -> m_end_marked buf = false ->
    (forall i, stop_flag i = false) ->
    exists buf',
      write_output_data (S (List.length (m_queue buf))) stop_flag k buf
                        minfill written
      = (Waiting, buf', written ++ m_queue buf) /\
      m_queue buf' = [] /\ m_end_marked buf' = false.
Proof.
  intro buf. remember (m_queue buf) as q eqn:Hq. revert buf Hq.
  induction q as [|v q IH];
    intros buf Hq stop_flag k minfill written Hinv Hfit He Hstop.
  - exists buf.
    assert (Hz : m_qlen buf = 0).
    { destruct Hinv as [Hlen _]. rewrite Hlen, <- Hq. reflexivity. }
    cbn [write_output_data List.length]. unfold write_output_iter.
    rewrite Hstop. unfold queued_samples, wait_buffer_fill, pull_end_reached,
      pull.
    rewrite Hz, He, <- Hq. cbn. rewrite app_nil_r.
    destruct (0 <? minfill); cbn; repeat split; reflexivity.
  - assert (Hv : v <> []).
    { destruct Hinv as [_ Hne]. rewrite <- Hq in Hne.
      inversion Hne; assumption. }
    assert (Hnz : (m_qlen buf =? 0) = false).
    { apply Z.eqb_neq. rewrite (qlen_exact Hinv Hfit), <- Hq. cbn.
      pose proof (vsize_pos Hv). pose proof (total_size_nonneg q). lia. }
    assert (Hp : pull buf
                 = Some (v, {| m_qlen := wrap_size_t (m_qlen buf - vsize v);
                               m_end_marked := m_end_marked buf;
                               m_queue := q |})).
    { unfold pull. rewrite <- Hq. reflexivity. }
    destruct (pull_inv Hinv Hp) as [Hinv' _].
    pose proof (fits_size_t_pull Hinv Hfit Hp) as Hfit'.
    destruct (IH (mkDataBuffer (wrap_size_t (m_qlen buf - vsize v))
                               (m_end_marked buf) q)
                 eq_refl stop_flag (S k) minfill (written ++ [v])
                 Hinv' Hfit' He Hstop) as [buf' [Hrun Hrest]].
    exists buf'. split; [|exact Hrest].
    cbn [List.length m_queue] in *. remember (S (List.length q)) as fuel.
    cbn [write_output_data]. unfold write_output_iter.
    rewrite Hstop. unfold queued_samples, pull_end_reached.
    rewrite Hnz, Hp. cbn [andb]. rewrite Hrun, <- app_assoc. reflexivity.
Qed.

End OutputThreadMore.

(** Two blocks queued, the end not marked, the stop flag seen in the second
    turn: one block written, one left. *)
Lemma output_thread_writes_front_run :
  let buf := push_all DataBuffer_new [[1; 2]; [3]] in
  buffer_inv buf /\
  exists out,
    snd (write_output_data 5 (fun k => Nat.leb 1 k) 0 buf 48000 [[0]])
    = [[0]] ++ out /\
    m_queue buf
    = out ++ m_queue (snd (fst (write_output_data
                                  5 (fun k => Nat.leb 1 k) 0 buf 48000
                                  [[0]]))) /\
    m_end_marked (snd (fst (write_output_data
                              5 (fun k => Nat.leb 1 k) 0 buf 48000 [[0]])))
    = m_end_marked buf.
Proof.
  cbv zeta.
  assert (Hinv : buffer_inv (push_all (@DataBuffer_new Z) [[1; 2]; [3]])).
  { apply buffer_inv_push_all, buffer_inv_new. }
  split; [exact Hinv|].
  apply (@output_thread_writes_front Z 5%nat (fun k => Nat.leb 1 k) 0%nat
           (push_all DataBuffer_new [[1; 2]; [3]]) 48000 [[0]] Hinv).
Defined.

(** An open buffer of two blocks and a minimum fill far above them. *)
Lemma output_thread_waits_run :
  let buf := push_all DataBuffer_new [[1; 2]; [3]] in
  exists buf',
    write_output_data 3 (fun _ => false) 0 buf 96000 []
    = (Waiting, buf', [[1; 2]; [3]]) /\
    m_queue buf' = [] /\ m_end_marked buf' = false.
Proof.
  cbv zeta.
  apply (@output_thread_waits_when_open Z
           (push_all DataBuffer_new [[1; 2]; [3]]) (fun _ => false) 0%nat
           96000 []).
  - apply buffer_inv_push_all, buffer_inv_new.
  - reflexivity.
  - reflexivity.
  - intro i. reflexivity.
Defined.

(** * The source thread *)

Section SourceThreadFacts.

Variable IQSample : Type.
Implicit Types (buf : DataBuffer IQSample)
               (turns : list (SourceTurn IQSample)).

Lemma push_queue : forall buf (v : list IQSample),
    m_queue (push buf v) = m_queue buf ++ (if empty v then [] else [v]) /\
    m_end_marked (push buf v) = m_end_marked buf.
Proof.
  intros buf v. unfold push. destruct v; cbn;
    rewrite ?app_nil_r; split; reflexivity.
Qed.

(** The buffer that [read_source_data] leaves, for each way it ends. *)
Lemma read_source_data_buffer : forall turns buf,
    m_queue (snd (read_source_data turns buf))
    = m_queue buf ++ nonempty_blocks (fetched_blocks turns) /\
    m_end_marked (snd (read_source_data turns buf))
    = match fst (read_source_data turns buf) with
      | SourceReturned => true
      | _ => m_end_marked buf
      end.
Proof.
  induction turns as [|t turns IH]; intro buf.
  - cbn. rewrite app_nil_r. split; reflexivity.
  - cbn [read_source_data fetched_blocks]. destruct (src_stop t).
    + cbn. rewrite app_nil_r. split; reflexivity.
    + destruct (src_get_samples t) as [v|].
      * destruct (IH (push buf v)) as [Hq He].
        destruct (push_queue buf v) as [Hpq Hpe].
        rewrite Hq, He, Hpq, Hpe, nonempty_blocks_cons, <- app_assoc.
        destruct (empty v); split; reflexivity.
      * cbn. rewrite app_nil_r. split; reflexivity.
Qed.

Lemma read_source_data_inv : forall turns buf,
    buffer_inv buf -> buffer_inv (snd (read_source_data turns buf)).
Proof.
  induction turns as [|t turns IH]; intros buf H; [exact H|].
  cbn [read_source_data]. destruct (src_stop t).
  - apply buffer_inv_push_end, H.
  - destruct (src_get_samples t) as [v|]; [|exact H].
    apply IH, buffer_inv_push, H.
Qed.

Lemma nonempty_blocks_Forall : forall vs : list (list IQSample),
    Forall (fun v => v <> []) (nonempty_blocks vs).
Proof.
  intro vs. unfold nonempty_blocks. apply Forall_forall. intros v Hv.
  apply filter_In in Hv. destruct Hv as [_ Hv]. destruct v; [discriminate|].
  discriminate.
Qed.

(** X8. When [read_source_data] returns (it has seen the stop flag), the
    buffer it was given new holds the non-empty blocks fetched, in the order
    of the fetches, and its end is marked: the main loop's pulls get these
    blocks one by one, then the empty vector, and then [pull_end_reached]
    is true. *)
Theorem source_thread_hands_over : forall turns,
    fst (read_source_data turns DataBuffer_new) = SourceReturned ->
    let buf := snd (read_source_data turns DataBuffer_new) in
    let blocks := nonempty_blocks (fetched_blocks turns) in
    m_queue buf = blocks /\ m_end_marked buf = true /\
    exists s',
      pull_n (S (List.length blocks)) buf = Some (blocks ++ [[]], s') /\
      pull_end_reached s' = true.
Proof.
  intros turns Hret buf blocks.
  destruct (read_source_data_buffer turns DataBuffer_new) as [Hq He].
  rewrite Hret in He. cbn in Hq. fold buf in Hq, He. fold blocks in Hq.
  assert (Hinv : buffer_inv buf).
  { apply read_source_data_inv, buffer_inv_new. }
  split; [exact Hq|]. split; [exact He|].
  destruct (pull_n_drains Hinv Hq) as [s' [Hn [Hq' [Hl' He']]]].
  assert (Hm : m_end_marked s' = true) by (rewrite He'; exact He).
  exists s'. split.
  - replace (S (List.length blocks)) with (List.length blocks + 1)%nat by lia.
    eapply pull_n_app; [exact Hn|]. cbn.
    rewrite (pull_closed_empty s' Hq' Hm). reflexivity.
  - unfold pull_end_reached. rewrite Hl', Hm. reflexivity.
Qed.

(** X9. When [get_samples] fails, [read_source_data] leaves by [exit(1)]
    without marking the end of the buffer: the buffer it was given new
    holds the non-empty blocks fetched before, and a consumer that has
    pulled them all is not told of any end, its next [pull] waits. *)
Theorem source_thread_failure : forall turns,
    fst (read_source_data turns DataBuffer_new) = SourceExit1 ->
    let buf := snd (read_source_data turns DataBuffer_new) in
    let blocks := nonempty_blocks (fetched_blocks turns) in
    m_queue buf = blocks /\ m_end_marked buf = false /\
    exists s',
      pull_n (List.length blocks) buf = Some (blocks, s') /\
      pull s' = None /\ pull_end_reached s' = false.
Proof.
  intros turns Hret buf blocks.
  destruct (read_source_data_buffer turns DataBuffer_new) as [Hq He].
  rewrite Hret in He. cbn in Hq, He. fold buf in Hq, He. fold blocks in Hq.
  assert (Hinv : buffer_inv buf).
  { apply read_source_data_inv, buffer_inv_new. }
  split; [exact Hq|]. split; [exact He|].
  destruct (pull_n_drains Hinv Hq) as [s' [Hn [Hq' [Hl' He']]]].
  assert (Hm : m_end_marked s' = false) by (rewrite He'; exact He).
  exists s'. split; [exact Hn|]. split.
  - unfold pull. rewrite Hq', Hm. reflexivity.
  - unfold pull_end_reached. rewrite Hm. apply Bool.andb_false_r.
Qed.

(** X10. The calls that [read_source_data] makes on its buffer are calls
    of [push], followed by one [push_end] when the function returns and by
    nothing else: it never pushes after it has marked the end, and it marks
    the end at most once.  Run alone it leaves the buffer that these calls
    lead to. *)
Theorem source_thread_calls : forall turns buf,
    snd (read_source_data turns buf) = run_ops buf (source_ops turns) /\
    exists pushes,
      forallb (@is_push_op IQSample) pushes = true /\
      source_ops turns
      = pushes ++ match fst (read_source_data turns buf) with
                  | SourceReturned => [OpPushEnd]
                  | _ => []
                  end.
Proof.
  induction turns as [|t turns IH]; intro buf.
  - split; [reflexivity|]. exists []. split; reflexivity.
  - cbn [read_source_data source_ops]. destruct (src_stop t).
    + split; [reflexivity|]. exists []. split; reflexivity.
    + destruct (src_get_samples t) as [v|].
      * destruct (IH (push buf v)) as [Hrun [pushes [Hall Hops]]].
        split; [rewrite Hrun; reflexivity|].
        exists (OpPush v :: pushes). split.
        -- cbn. exact Hall.
        -- rewrite Hops. reflexivity.
      * split; [reflexivity|]. exists []. split; reflexivity.
Qed.

End SourceThreadFacts.

(** Three fetches, one of them empty, then the stop flag. *)
Lemma source_thread_hands_over_run :
  let turns := [mkSourceTurn false (Some [1; 2]); mkSourceTurn false (Some []);
                mkSourceTurn false (Some [3]); mkSourceTurn true None] in
  fst (read_source_data turns DataBuffer_new) = SourceReturned /\
  nonempty_blocks (fetched_blocks turns) = [[1; 2]; [3]] /\
  exists s',
    pull_n 3 (snd (read_source_data turns DataBuffer_new))
    = Some ([[1; 2]; [3]] ++ [[]], s') /\
    pull_end_reached s' = true.
Proof.
  cbv zeta. split; [reflexivity|]. split; [reflexivity|].
  apply (@source_thread_hands_over Z
           [mkSourceTurn false (Some [1; 2]); mkSourceTurn false (Some []);
            mkSourceTurn false (Some [3]); mkSourceTurn true None]
           eq_refl).
Defined.

(** Two fetches, then a failure of the device. *)
Lemma source_thread_failure_run :
  let turns := [mkSourceTurn false (Some [1; 2]);
                mkSourceTurn false (Some [3]); mkSourceTurn false None] in
  fst (read_source_data turns DataBuffer_new) = SourceExit1 /\
  exists s',
    pull_n 2 (snd (read_source_data turns DataBuffer_new))
    = Some ([[1; 2]; [3]], s') /\
    pull s' = None /\ pull_end_reached s' = false.
Proof.
  cbv zeta. split; [reflexivity|].
  apply (@source_thread_failure Z
           [mkSourceTurn false (Some [1; 2]); mkSourceTurn false (Some [3]);
            mkSourceTurn false None]
           eq_refl).
Defined.

(** * From the main loop to the output thread *)

Section OutputPathFacts.

Context {D : Type} {ops : DoubleOps D}.
Context {IQSample : Type} {dec : Decoder D IQSample}.
Variables (ifrate : D) (outputbuf : Z).

(** [adjust_gain] keeps the length of the vector. *)
Lemma adjust_gain_length : forall (samples : list D) (gain : D),
    List.length (adjust_gain samples gain) = List.length samples.
Proof.
  intros samples gain. unfold adjust_gain.
  rewrite length_app, length_map, <- length_app, firstn_skipn. reflexivity.
Qed.

(** X11. [adjust_gain] returns a vector of the same length; for a vector
    of fewer than [2 ^ 32] samples it multiplies every sample by the gain,
    and for a longer one it leaves the samples from index
    [size mod 2 ^ 32] on as they are, its loop bound being an
    [unsigned int]. *)
Theorem adjust_gain_samples : forall (samples : list D) (gain : D),
    List.length (adjust_gain samples gain) = List.length samples /\
    (vsize samples < uint_modulus ->
     adjust_gain samples gain = map (fun x => d_mul x gain) samples) /\
    skipn (Z.to_nat (wrap_uint (vsize samples))) (adjust_gain samples gain)
    = skipn (Z.to_nat (wrap_uint (vsize samples))) samples.
Proof.
  intros samples gain. split; [apply adjust_gain_length|]. split.
  - intro Hsmall. unfold adjust_gain, wrap_uint.
    rewrite Z.mod_small by (unfold vsize in *; lia).
    unfold vsize. rewrite Nat2Z.id, firstn_all, skipn_all, app_nil_r.
    reflexivity.
  - unfold adjust_gain.
    set (n := Z.to_nat (wrap_uint (vsize samples))).
    assert (Hn : (n <= List.length samples)%nat).
    { unfold n, wrap_uint, vsize.
      pose proof (Z.mod_pos_bound (Z.of_nat (List.length samples))
                    uint_modulus eq_refl) as Hb.
      destruct (Z.eq_dec (Z.of_nat (List.length samples)) 0) as [Hz|Hnz].
      - rewrite Hz. cbn. lia.
      - pose proof (Z.mod_le (Z.of_nat (List.length samples)) uint_modulus)
          as Hle.
        assert (0 < uint_modulus) by reflexivity. lia. }
    rewrite skipn_app, length_map, length_firstn, Nat.min_l by exact Hn.
    rewrite Nat.sub_diag. cbn [skipn].
    rewrite skipn_all2; [reflexivity|].
    rewrite length_map, length_firstn. lia.
Qed.

Lemma adjust_gain_empty : forall (samples : list D) (gain : D),
    empty (adjust_gain samples gain) = empty samples.
Proof.
  intros samples gain. pose proof (adjust_gain_length samples gain) as H.
  destruct samples, (adjust_gain _ gain); cbn in *; congruence.
Qed.

(** The events of the whole loop go one way. *)
Lemma main_loop_output_path :
  forall (inputs : list (IterInput IQSample)) (st : MainState D),
    Forall (fun e => (if 0 <? outputbuf then is_direct_write e
                      else is_buffered_push e) = false)
           (concat (loop_events (main_loop ifrate outputbuf inputs st))).
Proof.
  induction inputs as [|inp inputs IH]; intro st; [constructor|].
  pose proof (main_iter_output_path D ops IQSample dec ifrate outputbuf inp st)
    as Hit.
  destruct (runs inp) eqn:Hr.
  - destruct (main_loop_runs ifrate outputbuf inp inputs st Hr) as [Hev _].
    rewrite Hev. cbn [concat]. apply Forall_app. split; [exact Hit|apply IH].
  - destruct (main_loop_leaves ifrate outputbuf inp inputs st Hr) as [Hev _].
    rewrite Hev. cbn [concat]. rewrite app_nil_r. exact Hit.
Qed.

(** Events without a direct write put their non-empty blocks into the
    output buffer. *)
Lemma fold_output_events : forall (evs : list (Event D)) (buf : DataBuffer D),
    Forall (fun e => is_direct_write e = false) evs ->
    m_queue (fold_left apply_output_event evs buf)
    = m_queue buf ++ nonempty_blocks (forwarded evs) /\
    m_end_marked (fold_left apply_output_event evs buf) = m_end_marked buf.
Proof.
  induction evs as [|e evs IH]; intros buf H.
  - cbn. rewrite app_nil_r. split; reflexivity.
  - inversion H as [|? ? He Hrest]; subst. cbn [fold_left].
    destruct (IH (apply_output_event buf e) Hrest) as [Hq Hm].
    rewrite Hq, Hm.
    destruct e as [| | | |v|v]; cbn [apply_output_event forwarded];
      try (split; reflexivity); [|discriminate He].
    destruct (push_queue D buf v) as [Hpq Hpe].
    rewrite Hpq, Hpe, nonempty_blocks_cons, <- app_assoc.
    split; reflexivity.
Qed.

Lemma fold_output_events_no_push :
  forall (evs : list (Event D)) (buf : DataBuffer D),
    Forall (fun e => is_buffered_push e = false) evs ->
    fold_left apply_output_event evs buf = buf.
Proof.
  induction evs as [|e evs IH]; intros buf H; [reflexivity|].
  inversion H as [|? ? He Hrest]; subst. cbn [fold_left].
  destruct e; cbn [apply_output_event]; try apply (IH buf Hrest).
  discriminate He.
Qed.

Lemma fold_output_events_inv :
  forall (evs : list (Event D)) (buf : DataBuffer D),
    buffer_inv buf -> buffer_inv (fold_left apply_output_event evs buf).
Proof.
  induction evs as [|e evs IH]; intros buf H; [exact H|].
  cbn [fold_left]. apply IH. destruct e; cbn; try exact H.
  apply buffer_inv_push, H.
Qed.

(** X12. With output buffering ([outputbuf_samples] above 0), the calls
    that the main thread makes on the output buffer, the pushes of the main
    loop and the [push_end] of the shutdown, leave it, when nothing has been
    pulled meanwhile, with its end marked and holding the blocks that the
    loop has handed on, in order, but not the empty ones, which [push]
    drops; its count is their number of samples in [size_t] arithmetic.
    Without output buffering the main thread leaves the output buffer as
    it was made: nothing is pushed and the end is not marked. *)
Theorem buffered_output_path :
  forall (inputs : list (IterInput IQSample)) (fm0 : FmDecoder),
    let evs := concat (loop_events (main_loop ifrate outputbuf inputs
                                              (main_init fm0))) in
    let buf := output_buffer_after outputbuf evs in
    (0 < outputbuf ->
     m_queue buf = nonempty_blocks (forwarded evs) /\
     m_end_marked buf = true /\
     m_qlen buf = wrap_size_t (total_size (nonempty_blocks (forwarded evs)))) /\
    (outputbuf <= 0 -> buf = DataBuffer_new).
Proof.
  intros inputs fm0 evs buf.
  pose proof (main_loop_output_path inputs (main_init fm0)) as Hpath.
  fold evs in Hpath. split.
  - intro Hpos. apply Z.ltb_lt in Hpos. rewrite Hpos in Hpath.
    destruct (fold_output_events evs DataBuffer_new Hpath) as [Hq Hm].
    assert (Hbq : m_queue buf = nonempty_blocks (forwarded evs)).
    { unfold buf, output_buffer_after, main_shutdown. rewrite Hpos.
      cbn [push_end m_queue]. exact Hq. }
    assert (Hbm : m_end_marked buf = true).
    { unfold buf, output_buffer_after, main_shutdown. rewrite Hpos.
      reflexivity. }
    assert (Hinv : buffer_inv buf).
    { unfold buf, output_buffer_after, main_shutdown. rewrite Hpos.
      apply buffer_inv_push_end, fold_output_events_inv, buffer_inv_new. }
    split; [exact Hbq|]. split; [exact Hbm|].
    destruct Hinv as [Hlen _]. rewrite Hlen, Hbq. reflexivity.
  - intro Hle.
    assert (Hneg : (0 <? outputbuf) = false) by (apply Z.ltb_ge; exact Hle).
    rewrite Hneg in Hpath.
    unfold buf, output_buffer_after, main_shutdown. rewrite Hneg.
    apply fold_output_events_no_push. exact Hpath.
Qed.

End OutputPathFacts.

(** Four turns of a decoder whose blocks are [[1]], output buffering on:
    the output buffer gets the three later blocks with the gain applied and
    its end is marked. *)
Lemma buffered_output_path_run :
  let fm0 := scripted_start (ops := binary64) [1%float] 1%float [] in
  let evs := concat (loop_events
                       (main_loop 1000000%float 48000
                                  (repeat (running_input [tt]) 4)
                                  (main_init fm0))) in
  nonempty_blocks (forwarded evs)
  = [[0.5%float]; [0.5%float]; [0.5%float]] /\
  m_queue (output_buffer_after 48000 evs) = nonempty_blocks (forwarded evs) /\
  m_end_marked (output_buffer_after 48000 evs) = true /\
  m_qlen (output_buffer_after 48000 evs)
  = wrap_size_t (total_size (nonempty_blocks (forwarded evs))).
Proof.
  cbv zeta. split; [reflexivity|].
  destruct (buffered_output_path 1000000%float 48000
              (repeat (running_input [tt]) 4)
              (scripted_start (ops := binary64) [1%float] 1%float []))
    as [Hbuf _].
  exact (Hbuf eq_refl).
Defined.

(** * Reading a number *)

Section ParseOptInt.

Lemma isdigit_code : forall c, isdigit c = true -> 48 <= char_code c <= 57.
Proof.
  intros c H. unfold isdigit in H. apply Bool.andb_true_iff in H.
  destruct H as [H1 H2]. apply Z.leb_le in H1, H2. lia.
Qed.

Lemma isdigit_not_space : forall c, isdigit c = true -> isspace c = false.
Proof.
  intros c H. apply isdigit_code in H. unfold isspace.
  destruct (Z.eqb_spec (char_code c) 32); [lia|].
  destruct (Z.leb_spec (char_code c) 13); [lia|].
  rewrite Bool.andb_false_r. reflexivity.
Qed.

Lemma digits_value_nonneg : forall cs acc,
    Forall (fun c => isdigit c = true) cs -> 0 <= acc ->
    0 <= digits_value acc cs.
Proof.
  induction cs as [|c cs IH]; intros acc H Hacc; [exact Hacc|].
  inversion H as [|? ? Hc Hrest]; subst.
  change (digits_value acc (c :: cs))
    with (digits_value (10 * acc + (char_code c - 48)) cs).
  apply IH; [exact Hrest|]. apply isdigit_code in Hc. lia.
Qed.

Lemma append_nil_r_chars : forall s : string, (s ++ EmptyString)%string = s.
Proof. induction s as [|c s IH]; cbn; [|rewrite IH]; reflexivity. Qed.

Lemma read_digits_chars : forall cs acc rest,
    Forall (fun c => isdigit c = true) cs -> no_digit_ahead rest ->
    read_digits acc ((string_of_chars cs ++ rest)%string)
    = (digits_value acc cs, List.length cs).
Proof.
  induction cs as [|c cs IH]; intros acc rest H Hrest.
  - cbn. destruct rest as [|c r]; [reflexivity|].
    cbn in *. rewrite Hrest. reflexivity.
  - inversion H as [|? ? Hc Hcs]; subst. cbn [string_of_chars append read_digits].
    rewrite Hc, (IH _ rest Hcs Hrest). reflexivity.
Qed.

Lemma string_drop_chars : forall cs rest,
    string_drop (List.length cs) ((string_of_chars cs ++ rest)%string) = rest.
Proof.
  induction cs as [|c cs IH]; intro rest; [destruct rest; reflexivity|].
  cbn. apply IH.
Qed.

(** [strtol] on digits, with what follows them. *)
Lemma strtol_digits : forall c cs rest,
    Forall (fun c => isdigit c = true) (c :: cs) -> no_digit_ahead rest ->
    strtol ((string_of_chars (c :: cs) ++ rest)%string)
    = (Z.min LONG_MAX (digits_value 0 (c :: cs)), S (List.length cs)).
Proof.
  intros c cs rest H Hrest.
  pose proof (digits_value_nonneg (c :: cs) 0 H (Z.le_refl 0)) as Hnn.
  inversion H as [|? ? Hc Hcs]; subst.
  pose proof (isdigit_code c Hc) as Hcode.
  unfold strtol. cbn [string_of_chars append skip_spaces].
  rewrite (isdigit_not_space c Hc). cbn [string_drop].
  destruct (Z.eqb_spec (char_code c) 45); [lia|].
  destruct (Z.eqb_spec (char_code c) 43); [lia|].
  cbn [string_drop].
  change (String c ((string_of_chars cs ++ rest)%string))
    with ((string_of_chars (c :: cs) ++ rest)%string).
  rewrite (read_digits_chars (c :: cs) 0 rest H Hrest).
  cbn [List.length Nat.add]. f_equal.
  unfold LONG_MIN, LONG_MAX in *. lia.
Qed.

Lemma strtol_signed_digits : forall sign c cs rest,
    char_code sign = 45 \/ char_code sign = 43 ->
    Forall (fun c => isdigit c = true) (c :: cs) -> no_digit_ahead rest ->
    strtol (String sign ((string_of_chars (c :: cs) ++ rest)%string))
    = (if char_code sign =? 45
       then Z.max LONG_MIN (- digits_value 0 (c :: cs))
       else Z.min LONG_MAX (digits_value 0 (c :: cs)),
       S (S (List.length cs))).
Proof.
  intros sign c cs rest Hsign H Hrest.
  pose proof (digits_value_nonneg (c :: cs) 0 H (Z.le_refl 0)) as Hnn.
  assert (Hsp : isspace sign = false).
  { unfold isspace.
    destruct (Z.eqb_spec (char_code sign) 32); [lia|].
    destruct (Z.leb_spec (char_code sign) 13); [lia|].
    rewrite Bool.andb_false_r. reflexivity. }
  unfold strtol. cbn [skip_spaces]. rewrite Hsp. cbn [string_drop].
  assert (Hrd : read_digits 0 ((string_of_chars (c :: cs) ++ rest)%string)
                = (digits_value 0 (c :: cs), S (List.length cs))).
  { apply (read_digits_chars (c :: cs) 0 rest H Hrest). }
  destruct (Z.eqb_spec (char_code sign) 45) as [H45|H45].
  - cbn [string_drop]. rewrite Hrd. cbn [Nat.add]. f_equal.
    unfold LONG_MIN, LONG_MAX in *. lia.
  - destruct (Z.eqb_spec (char_code sign) 43) as [H43|H43]; [|lia].
    cbn [string_drop]. rewrite Hrd. cbn [Nat.add]. f_equal.
    unfold LONG_MIN, LONG_MAX in *. lia.
Qed.

(** X13. [parse_opt] on a string of decimal digits gives the number they
    write when it is at most [INT_MAX], and fails for a larger one, however
    long the string; with a [+] before the digits it does the same, and
    with a [-] it gives the negated number down to [INT_MIN]. *)
Theorem parse_opt_int_decimal : forall cs,
    cs <> [] -> Forall (fun c => isdigit c = true) cs ->
    parse_opt_int (string_of_chars cs)
    = (if digits_value 0 cs <=? INT_MAX then Some (digits_value 0 cs)
       else None) /\
    parse_opt_int (String "+" (string_of_chars cs))
    = (if digits_value 0 cs <=? INT_MAX then Some (digits_value 0 cs)
       else None) /\
    parse_opt_int (String "-" (string_of_chars cs))
    = (if digits_value 0 cs <=? - INT_MIN then Some (- digits_value 0 cs)
       else None).
Proof.
  intros [|c cs] Hne H; [congruence|].
  pose proof (digits_value_nonneg (c :: cs) 0 H (Z.le_refl 0)) as Hnn.
  set (V := digits_value 0 (c :: cs)) in *.
  pose proof (strtol_digits c cs EmptyString H I) as H0.
  pose proof (strtol_signed_digits "+"%char c cs EmptyString
                (or_intror eq_refl) H I) as Hplus.
  pose proof (strtol_signed_digits "-"%char c cs EmptyString
                (or_introl eq_refl) H I) as Hminus.
  pose proof (string_drop_chars (c :: cs) EmptyString) as Hdrop.
  rewrite append_nil_r_chars in H0, Hplus, Hminus, Hdrop.
  fold V in H0, Hplus, Hminus.
  change (char_code "+"%char =? 45) with false in Hplus.
  change (char_code "-"%char =? 45) with true in Hminus.
  cbn [List.length] in Hdrop.
  assert (Hd1 : forall sign,
             string_drop (S (S (List.length cs)))
                         (String sign (string_of_chars (c :: cs)))
             = EmptyString) by (intro sign; exact Hdrop).
  unfold parse_opt_int. rewrite H0, Hplus, Hminus, Hdrop, !Hd1.
  cbn [Nat.eqb at_nul negb orb].
  unfold INT_MIN, INT_MAX, LONG_MIN, LONG_MAX.
  repeat split.
  - destruct (Z.leb_spec V 2147483647);
      destruct (Z.ltb_spec (Z.min 9223372036854775807 V) (-2147483648));
      destruct (Z.ltb_spec 2147483647 (Z.min 9223372036854775807 V));
      cbn [orb]; first [reflexivity | exfalso; lia | f_equal; lia].
  - destruct (Z.leb_spec V 2147483647);
      destruct (Z.ltb_spec (Z.min 9223372036854775807 V) (-2147483648));
      destruct (Z.ltb_spec 2147483647 (Z.min 9223372036854775807 V));
      cbn [orb]; first [reflexivity | exfalso; lia | f_equal; lia].
  - destruct (Z.leb_spec V (- -2147483648));
      destruct (Z.ltb_spec (Z.max (-9223372036854775808) (- V)) (-2147483648));
      destruct (Z.ltb_spec 2147483647 (Z.max (-9223372036854775808) (- V)));
      cbn [orb]; first [reflexivity | exfalso; lia | f_equal; lia].
Qed.

End ParseOptInt.

Lemma parse_opt_int_range : forall s v,
    parse_opt_int s = Some v -> INT_MIN <= v <= INT_MAX.
Proof.
  intros s v H. unfold parse_opt_int in H.
  destruct (strtol s) as [t n].
  destruct (Nat.eqb n 0); [discriminate|].
  destruct (negb (at_nul (string_drop n s))); [discriminate|].
  destruct (Z.ltb_spec t INT_MIN); [discriminate|].
  destruct (Z.ltb_spec INT_MAX t); [discriminate|].
  cbn in H. inversion H; subst. lia.
Qed.

(** X14. [parse_opt] fails on the empty string, and on digits that are
    followed by anything but the end of the string (a letter, a point, a
    blank), with or without a sign before the digits. *)
Theorem parse_opt_int_trailing : forall cs c rest,
    cs <> [] -> Forall (fun d => isdigit d = true) cs ->
    isdigit c = false -> char_code c <> 0 ->
    parse_opt_int EmptyString = None /\
    parse_opt_int (string_of_chars cs ++ String c rest) = None /\
    parse_opt_int (String "-" (string_of_chars cs ++ String c rest)) = None /\
    parse_opt_int (String "+" (string_of_chars cs ++ String c rest)) = None.
Proof.
  intros [|d cs] c rest Hne H Hc Hnul; [congruence|].
  pose proof (strtol_digits d cs (String c rest) H Hc) as H0.
  pose proof (strtol_signed_digits "+"%char d cs (String c rest)
                (or_intror eq_refl) H Hc) as Hplus.
  pose proof (strtol_signed_digits "-"%char d cs (String c rest)
                (or_introl eq_refl) H Hc) as Hminus.
  pose proof (string_drop_chars (d :: cs) (String c rest)) as Hdrop.
  cbn [List.length] in Hdrop.
  assert (Hd1 : forall sign,
             string_drop (S (S (List.length cs)))
               (String sign (string_of_chars (d :: cs) ++ String c rest))
             = String c rest) by (intro sign; exact Hdrop).
  assert (Hat : at_nul (String c rest) = false).
  { cbn. apply Z.eqb_neq. exact Hnul. }
  split; [reflexivity|].
  unfold parse_opt_int. rewrite H0, Hplus, Hminus, Hdrop, !Hd1, Hat.
  cbn [Nat.eqb negb orb]. repeat split.
Qed.

(** X15. White space before the number is skipped: [parse_opt] gives for
    a string that starts with a blank, a tab or a line end what it gives for
    the rest of the string. *)
Theorem parse_opt_int_leading_space : forall c s,
    isspace c = true ->
    parse_opt_int (String c s) = parse_opt_int s.
Proof.
  intros c s Hc. unfold parse_opt_int, strtol.
  cbn [skip_spaces]. rewrite Hc. cbn [string_drop].
  destruct (match string_drop (skip_spaces s) s with
            | EmptyString => (false, O)
            | String c0 _ =>
                if char_code c0 =? 45 then (true, 1%nat)
                else if char_code c0 =? 43 then (false, 1%nat)
                else (false, O)
            end) as [neg nsign].
  destruct (read_digits 0 (string_drop nsign (string_drop (skip_spaces s) s)))
    as [v nd].
  destruct nd as [|nd]; [reflexivity|].
  cbn [Nat.add Nat.eqb string_drop]. 
  replace (skip_spaces s + nsign + S nd)%nat
    with (S (skip_spaces s + nsign + nd)) by lia.
  reflexivity.
Qed.

(** Digits, digits with a sign, digits and more, and a blank first. *)
Lemma parse_opt_int_examples :
  parse_opt_int "48000" = Some 48000 /\
  parse_opt_int "-7" = Some (-7) /\
  parse_opt_int "2147483648" = None /\
  parse_opt_int "99999999999999999999999" = None /\
  parse_opt_int "44.1" = None /\
  parse_opt_int "48000 " = None /\
  parse_opt_int " 48000" = Some 48000 /\
  parse_opt_int "" = None /\
  parse_opt_int "-" = None.
Proof. repeat split. Qed.

Lemma parse_opt_int_decimal_run :
  parse_opt_int "2147483647" = Some 2147483647 /\
  parse_opt_int "+2147483647" = Some 2147483647 /\
  parse_opt_int "-2147483647" = Some (-2147483647).
Proof.
  apply (parse_opt_int_decimal
           ["2"; "1"; "4"; "7"; "4"; "8"; "3"; "6"; "4"; "7"]%char).
  - discriminate.
  - repeat constructor.
Defined.

Lemma parse_opt_int_trailing_run :
  parse_opt_int "" = None /\
  parse_opt_int "44.1" = None /\
  parse_opt_int "-44.1" = None /\
  parse_opt_int "+44.1" = None.
Proof.
  apply (parse_opt_int_trailing ["4"; "4"]%char "."%char "1"%string).
  - discriminate.
  - repeat constructor.
  - reflexivity.
  - discriminate.
Defined.

Lemma parse_opt_int_leading_space_run :
  isspace " "%char = true /\
  parse_opt_int " 12" = parse_opt_int "12".
Proof.
  split; [reflexivity|].
  apply (parse_opt_int_leading_space " "%char "12"%string). reflexivity.
Defined.

(** * The option loop *)

Section CommandLineFacts.

Variable strtod : string -> float * nat.

Lemma selected_mode_cons : forall c cs mode,
    selected_mode mode (c :: cs) = selected_mode (selected_mode mode [c]) cs.
Proof. intros c cs mode. destruct c; reflexivity. Qed.

(** What one accepted option changes. *)
Lemma handle_option_ok : forall c s s',
    handle_option strtod c s = OptOk s' ->
    (1 <= pcmrate (opts s) <= INT_MAX -> 1 <= pcmrate (opts s') <= INT_MAX) /\
    (0 <= devidx s <= INT_MAX -> 0 <= devidx s' <= INT_MAX) /\
    outmode (opts s') = selected_mode (outmode (opts s)) [c] /\
    stereo (opts s') = stereo (opts s) && negb (is_Opt_M c) /\
    (if is_Opt_f c then PrimFloat.leb (freq s') 0 = false
     else freq s' = freq s) /\
    (if is_Opt_b c then PrimFloat.ltb (bufsecs (opts s')) 0 = false
     else bufsecs (opts s') = bufsecs (opts s)).
Proof.
  intros c s s' H.
  destruct c as [a|a|a|a| |a|a|a|a| ]; cbn [handle_option] in H;
    try discriminate H.
  - destruct (parse_opt_double strtod a) as [v|]; [|discriminate H].
    destruct (PrimFloat.leb v 0) eqn:Hv; [discriminate H|].
    inversion H; subst; cbn. rewrite Bool.andb_true_r. repeat split; intros; auto; try lia.
  - destruct (parse_opt_int a) as [v|] eqn:Hp; [|discriminate H].
    destruct (Z.ltb_spec v 0) as [Hlt|Hge]; [discriminate H|].
    inversion H; subst; cbn. rewrite Bool.andb_true_r.
    pose proof (parse_opt_int_range a v Hp). repeat split; intros; auto; try lia.
  - destruct (parse_opt_double strtod a) as [v|]; [|discriminate H].
    destruct (PrimFloat.leb v 0) eqn:Hv; [discriminate H|].
    inversion H; subst; cbn. rewrite Bool.andb_true_r. repeat split; intros; auto; try lia.
  - destruct (parse_opt_int a) as [v|] eqn:Hp; [|discriminate H].
    destruct (Z.ltb_spec v 1) as [Hlt|Hge]; [discriminate H|].
    inversion H; subst; cbn. rewrite Bool.andb_true_r.
    pose proof (parse_opt_int_range a v Hp). repeat split; intros; auto; try lia.
  - inversion H; subst; cbn. rewrite Bool.andb_false_r. repeat split; intros; auto; try lia.
  - inversion H; subst; cbn. rewrite Bool.andb_true_r. repeat split; intros; auto; try lia.
  - inversion H; subst; cbn. rewrite Bool.andb_true_r. repeat split; intros; auto; try lia.
  - inversion H; subst; cbn. rewrite Bool.andb_true_r. repeat split; intros; auto; try lia.
  - destruct (parse_opt_double strtod a) as [v|]; [|discriminate H].
    destruct (PrimFloat.ltb v 0) eqn:Hv; [discriminate H|].
    inversion H; subst; cbn. rewrite Bool.andb_true_r. repeat split; intros; auto; try lia.
Qed.

(** What a list of accepted options makes of the settings. *)
Lemma option_loop_ok : forall cs s0 s,
    option_loop strtod cs s0 = OptOk s ->
    (1 <= pcmrate (opts s0) <= INT_MAX -> 1 <= pcmrate (opts s) <= INT_MAX) /\
    (0 <= devidx s0 <= INT_MAX -> 0 <= devidx s <= INT_MAX) /\
    outmode (opts s) = selected_mode (outmode (opts s0)) cs /\
    stereo (opts s) = stereo (opts s0) && negb (existsb is_Opt_M cs) /\
    (if existsb is_Opt_f cs then PrimFloat.leb (freq s) 0 = false
     else freq s = freq s0) /\
    (if existsb is_Opt_b cs then PrimFloat.ltb (bufsecs (opts s)) 0 = false
     else bufsecs (opts s) = bufsecs (opts s0)).
Proof.
  induction cs as [|c cs IH]; intros s0 s H.
  - cbn in H. inversion H; subst. cbn. rewrite Bool.andb_true_r.
    repeat split; intros; auto; try lia.
  - cbn [option_loop] in H.
    destruct (handle_option strtod c s0) as [s1| |] eqn:Hc;
      try discriminate H.
    destruct (handle_option_ok c s0 s1 Hc) as [Hr1 [Hd1 [Hm1 [Hs1 [Hf1 Hb1]]]]].
    destruct (IH s1 s H) as [Hr [Hd [Hm [Hs [Hf Hb]]]]].
    split; [auto|]. split; [auto|]. split; [|split; [|split]].
    + rewrite selected_mode_cons, <- Hm1. exact Hm.
    + rewrite Hs, Hs1. cbn [existsb].
      destruct (stereo (opts s0)), (is_Opt_M c), (existsb is_Opt_M cs);
        reflexivity.
    + cbn [existsb]. destruct (existsb is_Opt_f cs).
      * rewrite Bool.orb_true_r. exact Hf.
      * rewrite Bool.orb_false_r. destruct (is_Opt_f c); congruence.
    + cbn [existsb]. destruct (existsb is_Opt_b cs).
      * rewrite Bool.orb_true_r. exact Hb.
      * rewrite Bool.orb_false_r. destruct (is_Opt_b c); congruence.
Qed.

(** X16. After any options that the option loop accepts, the audio sample
    rate is between 1 and [INT_MAX] and the device index between 0 and
    [INT_MAX]; the output mode is the one of the last of [-R], [-W] and
    [-P], or ALSA when there is none; and decoding is stereo unless [-M]
    was among the options. *)
Theorem option_loop_settings : forall cs s,
    option_loop strtod cs default_settings = OptOk s ->
    1 <= pcmrate (opts s) <= INT_MAX /\
    0 <= devidx s <= INT_MAX /\
    outmode (opts s) = selected_mode MODE_ALSA cs /\
    stereo (opts s) = negb (existsb is_Opt_M cs).
Proof.
  intros cs s H.
  destruct (option_loop_ok cs default_settings s H)
    as [Hr [Hd [Hm [Hs _]]]].
  split; [apply Hr; cbn; unfold INT_MAX; lia|].
  split; [apply Hd; cbn; unfold INT_MAX; lia|].
  split; [exact Hm | exact Hs].
Qed.

(** X17. The tuning frequency has no default: after options that the
    option loop accepts, [main] stops with "Specify a tuning frequency"
    exactly when no [-f] was among them. *)
Theorem frequency_is_mandatory : forall cs s (default_bandwidth_if : float),
    option_loop strtod cs default_settings = OptOk s ->
    (check_settings default_bandwidth_if s
     = Some "Specify a tuning frequency"%string
     <-> existsb is_Opt_f cs = false).
Proof.
  intros cs s bw H.
  destruct (option_loop_ok cs default_settings s H) as [_ [_ [_ [_ [Hf _]]]]].
  unfold check_settings. destruct (existsb is_Opt_f cs).
  - rewrite Hf. split; [|discriminate].
    destruct (PrimFloat.ltb (ifrate s) (PrimFloat.mul 3 bw)); discriminate.
  - rewrite Hf. cbn [default_settings freq].
    change (PrimFloat.leb (-1) 0) with true. split; reflexivity.
Qed.

(** X18. How the options decide on the output buffer.  With [-b]
    accepted, the buffer length is not negative and [outputbuf_samples] is
    the truncated product of length and sample rate when the length is
    above 0, and 0 otherwise, whatever the output mode is: [-b 0] turns the
    output buffer off for ALSA output, too.  Without [-b] it is one second
    of samples for ALSA output and for raw output to [-], and 0
    otherwise. *)
Theorem option_loop_output_buffer : forall cs s,
    option_loop strtod cs default_settings = OptOk s ->
    outputbuf_samples (opts s)
    = if existsb is_Opt_b cs
      then if PrimFloat.ltb 0 (bufsecs (opts s))
           then float_to_uint (PrimFloat.mul (bufsecs (opts s))
                                             (float_of_Z (pcmrate (opts s))))
           else Some 0
      else if interactive_output (opts s) then Some (pcmrate (opts s))
           else Some 0.
Proof.
  intros cs s H.
  destruct (option_loop_ok cs default_settings s H)
    as [Hr [_ [_ [_ [_ Hb]]]]].
  assert (Hrate : 1 <= pcmrate (opts s) <= INT_MAX).
  { apply Hr. cbn. unfold INT_MAX. lia. }
  unfold outputbuf_samples, interactive_output.
  change (d_ltb (bufsecs (opts s)) (d_of_int 0))
    with (PrimFloat.ltb (bufsecs (opts s)) 0).
  change (d_ltb (d_of_int 0) (bufsecs (opts s)))
    with (PrimFloat.ltb 0 (bufsecs (opts s))).
  destruct (existsb is_Opt_b cs).
  - rewrite Hb. reflexivity.
  - rewrite Hb. cbn [default_settings opts].
    change (bufsecs (default_options (ops := binary64))) with (-1)%float.
    change (PrimFloat.ltb (-1) 0) with true.
    change (PrimFloat.ltb 0 (-1)) with false. cbn [andb].
    destruct (OutputMode_eqb (outmode (opts s)) MODE_ALSA
              || OutputMode_eqb (outmode (opts s)) MODE_RAW
                 && String.eqb (filename (opts s)) "-"); [|reflexivity].
    unfold wrap_uint. rewrite Z.mod_small; [reflexivity|].
    unfold INT_MAX in Hrate. change uint_modulus with 4294967296. lia.
Qed.

End CommandLineFacts.

(** A sample rate, mono, WAV output and then ALSA output again. *)
Lemma option_loop_settings_run :
  let cs := [Opt_r "44100"; Opt_M; Opt_W "out.wav"; Opt_P None] in
  exists s,
    option_loop (fun _ => (0%float, O)) cs default_settings = OptOk s /\
    pcmrate (opts s) = 44100 /\
    1 <= pcmrate (opts s) <= INT_MAX /\
    0 <= devidx s <= INT_MAX /\
    outmode (opts s) = selected_mode MODE_ALSA cs /\
    stereo (opts s) = negb (existsb is_Opt_M cs).
Proof.
  cbv zeta. eexists. split; [reflexivity|]. split; [reflexivity|].
  apply (option_loop_settings (fun _ => (0%float, O))
           [Opt_r "44100"; Opt_M; Opt_W "out.wav"; Opt_P None]).
  reflexivity.
Defined.

(** No [-f] among the options. *)
Lemma frequency_is_mandatory_run :
  let cs := [Opt_r "44100"; Opt_M] in
  exists s,
    option_loop (fun _ => (0%float, O)) cs default_settings = OptOk s /\
    (check_settings 100000%float s
     = Some "Specify a tuning frequency"%string
     <-> existsb is_Opt_f cs = false).
Proof.
  cbv zeta. eexists. split; [reflexivity|].
  apply (frequency_is_mandatory (fun _ => (0%float, O))
           [Opt_r "44100"; Opt_M]).
  reflexivity.
Defined.

(** [-b] with a [strtod] that reads every argument as 2: two seconds at
    44100 samples per second, for WAV output. *)
Lemma option_loop_output_buffer_run :
  let strtod := fun s : string => (2%float, String.length s) in
  let cs := [Opt_b "2"; Opt_W "out.wav"; Opt_r "44100"] in
  let s := {| opts := {| pcmrate := 44100; stereo := true;
                         outmode := MODE_WAV; filename := "out.wav";
                         bufsecs := 2%float |};
              freq := (-1)%float; devidx := 0; ifrate := 1000000%float;
              alsadev := "default" |} in
  option_loop strtod cs default_settings = OptOk s /\
  outputbuf_samples (opts s) = Some 88200.
Proof.
  cbv zeta. split; [reflexivity|].
  match goal with
  | |- outputbuf_samples (opts ?s0) = _ =>
      exact (option_loop_output_buffer
               (fun s : string => (2%float, String.length s))
               [Opt_b "2"; Opt_W "out.wav"; Opt_r "44100"] s0 eq_refl)
  end.
Defined.

(** * The minimum fill of the output thread *)

(** X19. The minimum fill that the output thread is started with is the
    number of buffer samples times the number of channels as long as that
    product is below [2 ^ 32]; for stereo and [2 ^ 31] buffer samples or
    more the product wraps, and the minimum fill is [2 ^ 32] less, which is
    below the number of buffer samples and 0 for exactly [2 ^ 31]. *)
Theorem output_thread_minfill_wraps :
  forall (D : Type) (o : Options D) (outputbuf : Z),
    0 < outputbuf < uint_modulus ->
    output_thread_minfill o outputbuf
    = Some (if stereo o && (2147483648 <=? outputbuf)
            then 2 * outputbuf - uint_modulus
            else outputbuf * nchannel o) /\
    (stereo o && (2147483648 <=? outputbuf) = true ->
     2 * outputbuf - uint_modulus < outputbuf).
Proof.
  intros D o outputbuf Hb. change uint_modulus with 4294967296 in *.
  assert (Hpos : (0 <? outputbuf) = true) by (apply Z.ltb_lt; lia).
  split.
  - unfold output_thread_minfill, nchannel, wrap_uint. rewrite Hpos.
    change uint_modulus with 4294967296. f_equal.
    destruct (stereo o); cbn [andb].
    + destruct (Z.leb_spec 2147483648 outputbuf).
      * symmetry. apply Z.mod_unique with (q := 1); lia.
      * apply Z.mod_small. lia.
    + apply Z.mod_small. lia.
  - intros _. lia.
Qed.

Lemma output_thread_minfill_wraps_run :
  output_thread_minfill (default_options (ops := binary64)) 2147483648
  = Some 0 /\
  output_thread_minfill (default_options (ops := binary64)) 3000000000
  = Some 1705032704.
Proof.
  split.
  - apply (output_thread_minfill_wraps float
             (default_options (ops := binary64)) 2147483648).
    split; reflexivity.
  - apply (output_thread_minfill_wraps float
             (default_options (ops := binary64)) 3000000000).
    split; reflexivity.
Defined.
